(** * Speech statistics: header validation, grouping and rankings

    A shallow embedding of the CSV-to-aggregate pipeline of the server
    ([validateCsvHeader], [sortAndGroupData], [getLeastWordySpeaker],
    [filterForSpeakers], [getFilteredSpeaker], [evaluate]) together with
    the part of the ECMAScript runtime those functions rely on: numbers
    with NaN, [parseInt], ordinary objects with their property order and
    their prototype, and [Array.prototype.sort]. *)

From Stdlib Require Import List String Ascii ZArith Lia Bool Arith.
Import ListNotations.

Local Open Scope string_scope.
Local Open Scope list_scope.

(** ** Outcomes

    A call either completes with a value or throws.  The only exception
    the modelled functions can raise is a [TypeError]. *)

Inductive result (A : Type) : Type :=
| Ok (a : A)
| TypeError.

Arguments Ok {A} a.
Arguments TypeError {A}.

Definition bind {A B : Type} (r : result A) (k : A -> result B) : result B :=
  match r with
  | Ok a => k a
  | TypeError => TypeError
  end.

Notation "x <- r ;; k" := (bind r (fun x => k))
  (at level 61, r at next level, right associativity).

(** ** The runtime *)

Module Js.

(** *** Numbers

    The numbers of the program are word totals, array lengths and years.
    [Num z] stands for the double that represents the integer [z]; the
    correspondence is exact while magnitudes stay below 2^53.  [NaN] is
    the not-a-number value. *)

Inductive number : Type :=
| NaN
| Num (z : Z).

Definition add (a b : number) : number :=
  match a, b with
  | Num x, Num y => Num (x + y)
  | _, _ => NaN
  end.

Definition sub (a b : number) : number :=
  match a, b with
  | Num x, Num y => Num (x - y)
  | _, _ => NaN
  end.

(** [a === b] on numbers: NaN equals nothing, itself included. *)
Definition number_eq (a b : number) : bool :=
  match a, b with
  | Num x, Num y => (x =? y)%Z
  | _, _ => false
  end.

Definition isNaN (a : number) : bool :=
  match a with
  | NaN => true
  | Num _ => false
  end.

(** *** Strings

    A character of a [string] stands for one code unit; the model covers
    the code units below 256.  [None] at an option type stands for
    [undefined]. *)

(** [a === "literal"] where [a] may be [undefined]. *)
Definition string_eq (a : option string) (b : string) : bool :=
  match a with
  | Some s => String.eqb s b
  | None => false
  end.

(** ToString, which is also ToPropertyKey on these values. *)
Definition ToString (a : option string) : string :=
  match a with
  | Some s => s
  | None => "undefined"
  end.

(** *** parseInt(string), radix absent *)

Definition isWhiteSpace (c : ascii) : bool :=
  let n := nat_of_ascii c in
  ((n =? 9) || (n =? 10) || (n =? 11) || (n =? 12) || (n =? 13)
   || (n =? 32) || (n =? 160))%nat.

Fixpoint trimStart (s : string) : string :=
  match s with
  | String c s' => if isWhiteSpace c then trimStart s' else s
  | EmptyString => s
  end.

Definition digitValue (c : ascii) : option Z :=
  let n := Z.of_nat (nat_of_ascii c) in
  if ((48 <=? n) && (n <=? 57))%Z then Some (n - 48)%Z
  else if ((97 <=? n) && (n <=? 122))%Z then Some (n - 87)%Z
  else if ((65 <=? n) && (n <=? 90))%Z then Some (n - 55)%Z
  else None.

(** The value of the longest prefix of radix-[R] digits, [acc] being the
    value of the digits read so far ([None]: no digit yet). *)
Fixpoint digits (R : Z) (s : string) (acc : option Z) : option Z :=
  match s with
  | String c s' =>
      match digitValue c with
      | Some d =>
          if (d <? R)%Z
          then digits R s' (Some (R * match acc with Some a => a | None => 0 end + d)%Z)
          else acc
      | None => acc
      end
  | EmptyString => acc
  end.

Definition parseInt (x : option string) : number :=
  let str := trimStart (ToString x) in
  let '(sign, str) :=
    match str with
    | String "-"%char rest => ((-1)%Z, rest)
    | String "+"%char rest => (1%Z, rest)
    | _ => (1%Z, str)
    end in
  let '(R, str) :=
    match str with
    | String "0"%char (String "x"%char rest) => (16%Z, rest)
    | String "0"%char (String "X"%char rest) => (16%Z, rest)
    | _ => (10%Z, str)
    end in
  match digits R str None with
  | None => NaN
  | Some m => Num (sign * m)
  end.

(** *** Ordinary objects

    An object is the list of its own properties in the order in which
    [for ... in] and [Object.entries] enumerate them: the keys that are
    array indices first, in ascending numeric order, then the other keys
    in the order of their creation. *)

Definition object (V : Type) : Type := list (string * V).

Definition isDigit (c : ascii) : bool :=
  let n := nat_of_ascii c in ((48 <=? n) && (n <=? 57))%nat.

Fixpoint allDigits (s : string) : bool :=
  match s with
  | String c s' => isDigit c && allDigits s'
  | EmptyString => true
  end.

(** The array index a key denotes, if any: the canonical decimal string
    of an integer from 0 to 2^32 - 2. *)
Definition arrayIndex (k : string) : option Z :=
  match k with
  | EmptyString => None
  | String c s' =>
      if allDigits k && (negb (Ascii.eqb c "0"%char) || String.eqb s' "")
      then match digits 10 k None with
           | Some n => if (n <? 4294967295)%Z then Some n else None
           | None => None
           end
      else None
  end.

(** [precedes k k']: a new key [k] is enumerated before the existing
    key [k']. *)
Definition precedes (k k' : string) : bool :=
  match arrayIndex k, arrayIndex k' with
  | Some i, Some j => (i <? j)%Z
  | Some _, None => true
  | None, _ => false
  end.

Section Objects.
Context {V : Type}.

Fixpoint getOwn (k : string) (o : object V) : option V :=
  match o with
  | [] => None
  | (k', v) :: o' => if String.eqb k k' then Some v else getOwn k o'
  end.

(** Overwrite the value of an existing own property; its place in the
    enumeration is kept. *)
Fixpoint update (k : string) (v : V) (o : object V) : object V :=
  match o with
  | [] => []
  | (k', v') :: o' =>
      if String.eqb k k' then (k, v) :: o' else (k', v') :: update k v o'
  end.

(** Create a new own property at its place in the enumeration. *)
Fixpoint create (k : string) (v : V) (o : object V) : object V :=
  match o with
  | [] => [(k, v)]
  | (k', v') :: o' =>
      if precedes k k' then (k, v) :: o else (k', v') :: create k v o'
  end.

(** [o[k] = v] on a data property. *)
Definition set (k : string) (v : V) (o : object V) : object V :=
  match getOwn k o with
  | Some _ => update k v o
  | None => create k v o
  end.

(** The outcome of reading [o[k]] on an object literal, whose
    prototype is [Object.prototype]. *)
Inductive lookup : Type :=
| Own (v : V)
| Inherited
| Undefined.
End Objects.

Arguments lookup V : clear implicits.

(** The properties of [Object.prototype]. *)
Definition ObjectPrototype : list string :=
  [ "constructor"; "hasOwnProperty"; "isPrototypeOf";
    "propertyIsEnumerable"; "toLocaleString"; "toString"; "valueOf";
    "__proto__"; "__defineGetter__"; "__defineSetter__";
    "__lookupGetter__"; "__lookupSetter__" ].

Definition inherited (k : string) : bool :=
  existsb (String.eqb k) ObjectPrototype.

Definition get {V : Type} (k : string) (o : object V) : lookup V :=
  match getOwn k o with
  | Some v => Own v
  | None => if inherited k then Inherited else Undefined
  end.

(** [o[k] = n] for a number [n]: the key "__proto__" reaches the setter
    of [Object.prototype], which ignores a value that is not an object;
    every other key becomes (or stays) an own property. *)
Definition setNumber (k : string) (n : number) (o : object number)
  : object number :=
  if String.eqb k "__proto__" then o else set k n o.

(** *** Array.prototype.sort(comparefn)

    The sort is stable.  A comparator result that is NaN counts as +0.
    For a comparator that orders the elements consistently every stable
    sort gives the list below; for one that does not, the order is left
    to the engine, and no statement of this file depends on it. *)

Definition sortCompare (v : number) : Z :=
  match v with
  | NaN => 0%Z
  | Num z => z
  end.

Section Sort.
Context {A : Type} (comparefn : A -> A -> number).

Fixpoint insert (x : A) (l : list A) : list A :=
  match l with
  | [] => [x]
  | y :: l' =>
      if (sortCompare (comparefn x y) <=? 0)%Z
      then x :: l
      else y :: insert x l'
  end.

Fixpoint sort (l : list A) : list A :=
  match l with
  | [] => []
  | x :: l' => insert x (sort l')
  end.
End Sort.

End Js.

Import Js.

(** ** The host's clock

    [new Date(s).getFullYear()] depends on the engine (which date formats
    it recognises) and on the local time zone of the machine (the year is
    read in local time).  A host fixes both; [NaN] is the year of an
    invalid date. *)

Record Host : Type := {
  dateFullYear : string -> number
}.

(** [new Date(d).getFullYear()] where [d] may be [undefined]: the date
    made from [undefined] is invalid. *)
Definition getFullYear (host : Host) (d : option string) : number :=
  match d with
  | Some s => dateFullYear host s
  | None => NaN
  end.

(** Hosts for the examples.  A date-only string YYYY-MM-DD that names a
    day of the calendar denotes midnight UTC of that day; read in a zone
    [tzMinutes] east of UTC (negative: west), with less than a day of
    offset, it falls in the year before exactly when the zone is behind
    UTC and the day is the first of January.  Other formats are not
    needed by the examples and are invalid dates on these hosts. *)

Definition twoDigits (a b : ascii) : option Z :=
  if isDigit a && isDigit b then digits 10 (String a (String b "")) None
  else None.

Definition daysInMonth (y m : Z) : Z :=
  if (m =? 2)%Z then
    if ((y mod 4 =? 0) && (negb (y mod 100 =? 0) || (y mod 400 =? 0)))%Z
    then 29%Z else 28%Z
  else if ((m =? 4) || (m =? 6) || (m =? 9) || (m =? 11))%Z then 30%Z
  else 31%Z.

Definition isoDateOnly (s : string) : option (Z * Z * Z) :=
  match s with
  | String y1 (String y2 (String y3 (String y4 (String "-"%char
      (String m1 (String m2 (String "-"%char
        (String d1 (String d2 EmptyString))))))))) =>
      let ys := String y1 (String y2 (String y3 (String y4 ""))) in
      if allDigits ys then
        match digits 10 ys None, twoDigits m1 m2, twoDigits d1 d2 with
        | Some y, Some m, Some d =>
            if ((1 <=? m) && (m <=? 12) && (1 <=? d)
                && (d <=? daysInMonth y m))%Z
            then Some (y, m, d) else None
        | _, _, _ => None
        end
      else None
  | _ => None
  end.

Definition isoHost (tzMinutes : Z) : Host :=
  {| dateFullYear s :=
       match isoDateOnly s with
       | Some (y, m, d) =>
           if ((tzMinutes <? 0) && (m =? 1) && (d =? 1))%Z
           then Num (y - 1) else Num y
       | None => NaN
       end |}.

(** ** Data model (ts/interfaces) *)

Record ISpeach : Type := {
  topic : option string;
  date : option string;
  words : option string
}.

Record Speaker : Type := {
  name : option string;
  speaches : list ISpeach
}.

Definition ISpeaker : Type := object Speaker.

Inductive FilterOption : Type :=
| filterByYear
| filterByTopic.

(** [value: number | string] *)
Inductive FilterValue : Type :=
| Number (n : number)
| Text (s : string).

Record IFilterOptions : Type := {
  option_ : FilterOption;
  value : FilterValue
}.

(** [filteredSpeakerType]: speaker name to number. *)
Definition filteredSpeakerType : Type := object number.

(** Modelled from the spec: the enum [ColumnDefinitions] of ts/enums is
    not among the sources; the four labels sit at four fixed zero-based
    column positions, in the order Speaker, Topic, Date, Words. *)
Module ColumnDefinitions.
Definition Speaker : nat := 0.
Definition Topic : nat := 1.
Definition Date : nat := 2.
Definition Words : nat := 3.
End ColumnDefinitions.

(** A row of a parsed file, a file, and what [evaluate] assembles. *)
Definition Row : Type := list string.
Definition CsvFile : Type := list Row.

Record EvaluationResult : Type := {
  mostSpeaches : option string;
  mostSecurity : option string;
  leastWordy : option string
}.

(** ** Rankers *)

(** The callback of [reduce] in [getLeastWordySpeaker], from 0. *)
Definition totalWords (speaches : list ISpeach) : number :=
  fold_left (fun previousValue currentValue =>
               add previousValue (parseInt (words currentValue)))
            speaches (Num 0).

Definition speakersByWords (speakers : ISpeaker) : filteredSpeakerType :=
  fold_left (fun acc (entry : string * Speaker) =>
               let speakersName := name (snd entry) in
               setNumber (ToString speakersName)
                         (totalWords (speaches (snd entry))) acc)
            speakers [].

(** [null] is [None]; the array that is sorted is not empty, so [shift]
    gives an entry and the result is its key. *)
Definition getLeastWordySpeaker (speakers : ISpeaker) : option string :=
  let entries := speakersByWords speakers in
  match entries with
  | [] => None
  | _ :: _ =>
      match sort (fun a b => sub (snd a) (snd b)) entries with
      | first :: _ => Some (fst first)
      | [] => None
      end
  end.

Section Filtering.
Variable host : Host.

(** Whether one speech passes the filter. *)
Definition matches (filterOptions : IFilterOptions) (speach : ISpeach) : bool :=
  match option_ filterOptions with
  | filterByYear =>
      match value filterOptions with
      | Number y => number_eq (getFullYear host (date speach)) y
      | Text _ => false
      end
  | filterByTopic =>
      match value filterOptions with
      | Text t => string_eq (topic speach) t
      | Number _ => false
      end
  end.

Definition filterForSpeakers (speakers : ISpeaker)
  (filterOptions : IFilterOptions) : filteredSpeakerType :=
  fold_left (fun filteredSpeakers (entry : string * Speaker) =>
               let speakersName := name (snd entry) in
               let filteredSpeaches :=
                 filter (matches filterOptions) (speaches (snd entry)) in
               if (0 <? List.length filteredSpeaches)%nat
               then setNumber (ToString speakersName)
                              (Num (Z.of_nat (List.length filteredSpeaches)))
                              filteredSpeakers
               else filteredSpeakers)
            speakers [].

Definition getFilteredSpeaker (speakers : ISpeaker)
  (filterOptions : IFilterOptions) : option string :=
  let filteredSpeakers := filterForSpeakers speakers filterOptions in
  match filteredSpeakers with
  | [] => None
  | _ :: _ =>
      match sort (fun a b => sub (snd b) (snd a)) filteredSpeakers with
      | first :: _ => Some (fst first)
      | [] => None
      end
  end.
End Filtering.

(** ** Header validator *)

(** [header] is [csvFile[0]], which is [undefined] for a file without
    rows; reading a property of [undefined] throws. *)
Definition validateCsvHeader (header : option Row) : result bool :=
  match header with
  | None => TypeError
  | Some header =>
      Ok (string_eq (nth_error header ColumnDefinitions.Speaker) "Speaker"
          && string_eq (nth_error header ColumnDefinitions.Topic) "Topic"
          && string_eq (nth_error header ColumnDefinitions.Date) "Date"
          && string_eq (nth_error header ColumnDefinitions.Words) "Words")
  end.

(** ** Grouper *)

Definition speachOf (rowData : Row) : ISpeach :=
  {| topic := nth_error rowData ColumnDefinitions.Topic;
     date := nth_error rowData ColumnDefinitions.Date;
     words := nth_error rowData ColumnDefinitions.Words |}.

(** The body of the loop over the rows.  [speakers[speaker]] is read
    through the prototype: for a name that [Object.prototype] defines
    the read is not [undefined], the second branch is taken, and
    spreading the [speaches] of the inherited value, which is
    [undefined], throws. *)
Definition groupRow (speakers : ISpeaker) (rowData : Row) : result ISpeaker :=
  let speaker := nth_error rowData ColumnDefinitions.Speaker in
  let speach := speachOf rowData in
  match get (ToString speaker) speakers with
  | Undefined =>
      Ok (set (ToString speaker)
              {| name := speaker; speaches := [speach] |} speakers)
  | Own entry =>
      Ok (set (ToString speaker)
              {| name := name entry;
                 speaches := speaches entry ++ [speach] |} speakers)
  | Inherited => TypeError
  end.

Fixpoint groupRows (rows : list Row) (speakers : ISpeaker) : result ISpeaker :=
  match rows with
  | [] => Ok speakers
  | rowData :: rows' =>
      speakers' <- groupRow speakers rowData ;; groupRows rows' speakers'
  end.

(** The loop over the files, from the speakers collected so far.  The
    files are arrays that the function changes in place ([shift]), so
    the files as they are left are returned beside the outcome, also
    when the outcome is an exception.  Each file is an array of its own
    (one per [readCSV] call), so no two entries of the list alias. *)
Fixpoint groupFiles (csvFilesData : list CsvFile) (speakers : ISpeaker)
  : result ISpeaker * list CsvFile :=
  match csvFilesData with
  | [] => (Ok speakers, [])
  | csvFile :: rest =>
      match validateCsvHeader (hd_error csvFile) with
      | TypeError => (TypeError, csvFile :: rest)
      | Ok false =>
          let (out, rest') := groupFiles rest speakers in
          (out, csvFile :: rest')
      | Ok true =>
          let shifted := tl csvFile in
          match groupRows shifted speakers with
          | TypeError => (TypeError, shifted :: rest)
          | Ok speakers' =>
              let (out, rest') := groupFiles rest speakers' in
              (out, shifted :: rest')
          end
      end
  end.

Definition sortAndGroupData (csvFilesData : list CsvFile)
  : result ISpeaker * list CsvFile :=
  groupFiles csvFilesData [].

(** ** Evaluator

    The source serialises the three answers with [JSON.stringify]; the
    record stands for that text, which determines the three fields. *)
Definition evaluate (host : Host) (csvFilesData : list CsvFile)
  : result EvaluationResult * list CsvFile :=
  let (grouped, csvFilesData') := sortAndGroupData csvFilesData in
  (sortedAndGroupedData <- grouped ;;
   Ok {| mostSpeaches :=
           getFilteredSpeaker host sortedAndGroupedData
             {| option_ := filterByYear; value := Number (Num 2013) |};
         mostSecurity :=
           getFilteredSpeaker host sortedAndGroupedData
             {| option_ := filterByTopic; value := Text "Internal Security" |};
         leastWordy := getLeastWordySpeaker sortedAndGroupedData |},
   csvFilesData').

(** ** Vocabulary of the statements *)

(** How many speeches of a speaker pass the filter. *)
Definition matchCount (host : Host) (filterOptions : IFilterOptions)
  (speaker : Speaker) : nat :=
  List.length (filter (matches host filterOptions) (speaches speaker)).

(** The entries [filterForSpeakers] keeps, read off the table directly. *)
Definition selected (host : Host) (filterOptions : IFilterOptions)
  (speakers : ISpeaker) : filteredSpeakerType :=
  flat_map (fun entry : string * Speaker =>
              let n := matchCount host filterOptions (snd entry) in
              if (0 <? n)%nat then [(fst entry, Num (Z.of_nat n))] else [])
           speakers.

(** The keys of an object come in enumeration order: they are distinct,
    and no key would have been created in front of an earlier one. *)
Definition enumerated (keys : list string) : Prop :=
  ForallOrdPairs (fun a b => a <> b /\ precedes b a = false) keys.

(** The invariant of a speaker table: an entry is stored under its
    speaker's name, and "__proto__" is no entry. *)
Definition named (entry : string * Speaker) : Prop :=
  ToString (name (snd entry)) = fst entry /\ fst entry <> "__proto__".

Definition wf_table (speakers : ISpeaker) : Prop :=
  enumerated (map fst speakers) /\ Forall named speakers.

(** What the grouper maintains besides: no entry is stored under a
    name that objects inherit. *)
Definition grouped (speakers : ISpeaker) : Prop :=
  enumerated (map fst speakers) /\
  Forall (fun entry : string * Speaker =>
            ToString (name (snd entry)) = fst entry /\
            inherited (fst entry) = false) speakers.

(** The two answers of the validator on the first row of a file. *)
Definition headerValid (csvFile : CsvFile) : Prop :=
  validateCsvHeader (hd_error csvFile) = Ok true.

Definition headerInvalid (csvFile : CsvFile) : Prop :=
  validateCsvHeader (hd_error csvFile) = Ok false.

(** The key under which a row is grouped, and the speeches a table
    holds under a key. *)
Definition speakerKey (rowData : Row) : string :=
  ToString (nth_error rowData ColumnDefinitions.Speaker).

Definition speachesOf (k : string) (speakers : ISpeaker) : list ISpeach :=
  match getOwn k speakers with
  | Some entry => speaches entry
  | None => []
  end.

(** The number of speeches in a table, over all its speakers. *)
Definition records (speakers : ISpeaker) : nat :=
  list_sum (map (fun entry : string * Speaker =>
                   List.length (speaches (snd entry))) speakers).

(** The data rows of the files with a valid header, in input order. *)
Definition dataRows (csvFilesData : list CsvFile) : list Row :=
  flat_map (fun csvFile =>
              match validateCsvHeader (hd_error csvFile) with
              | Ok true => tl csvFile
              | _ => []
              end) csvFilesData.

(** The inputs on which the grouper completes: every file has a first
    row, and no data row names a property of [Object.prototype]. *)
Definition groupable (csvFilesData : list CsvFile) : Prop :=
  Forall (fun csvFile => csvFile <> []) csvFilesData /\
  Forall (fun rowData => inherited (speakerKey rowData) = false)
         (dataRows csvFilesData).

(** The keys of a list in the order of their first appearance, after
    those already seen. *)
Definition appearance (seen keys : list string) : list string :=
  fold_left (fun seen k =>
               if existsb (String.eqb k) seen then seen else seen ++ [k])
            keys seen.

(** A file with every row cut after its fourth field. *)
Definition fourColumns (csvFile : CsvFile) : CsvFile :=
  map (firstn 4) csvFile.

(** The three answers [evaluate] assembles over a table. *)
Definition answersOver (host : Host) (speakers : ISpeaker) : EvaluationResult :=
  {| mostSpeaches :=
       getFilteredSpeaker host speakers
         {| option_ := filterByYear; value := Number (Num 2013) |};
     mostSecurity :=
       getFilteredSpeaker host speakers
         {| option_ := filterByTopic; value := Text "Internal Security" |};
     leastWordy := getLeastWordySpeaker speakers |}.

(** A file as a completed grouping run leaves it. *)
Definition afterGrouping (csvFile : CsvFile) : CsvFile :=
  match validateCsvHeader (hd_error csvFile) with
  | Ok true => tl csvFile
  | _ => csvFile
  end.

Definition noResult : EvaluationResult :=
  {| mostSpeaches := None; mostSecurity := None; leastWordy := None |}.

(** ** Example data *)

Definition header : Row := ["Speaker"; "Topic"; "Date"; "Words"].

Definition tableA : CsvFile :=
  [ header;
    ["Alice"; "Internal Security"; "2013-01-01"; "100"];
    ["Bob"; "Budget"; "2013-02-01"; "50"] ].

(** A header without the Words column. *)
Definition tableB : CsvFile :=
  [ ["Speaker"; "Topic"; "Date"];
    ["Carol"; "Budget"; "2013-03-01"] ].

Definition speach (t d w : string) : ISpeach :=
  {| topic := Some t; date := Some d; words := Some w |}.

Definition speakerOf (n : string) (l : list ISpeach) : string * Speaker :=
  (n, {| name := Some n; speaches := l |}).

Definition byYear (y : Z) : IFilterOptions :=
  {| option_ := filterByYear; value := Number (Num y) |}.

Definition byTopic (t : string) : IFilterOptions :=
  {| option_ := filterByTopic; value := Text t |}.

(** Two speakers, the first with a speech whose word count is empty;
    and the same table without that speech. *)
Definition withMalformed : ISpeaker :=
  [ speakerOf "Alice" [speach "Budget" "2013-01-01" "";
                       speach "Budget" "2013-01-02" "10"];
    speakerOf "Bob" [speach "Budget" "2013-02-01" "5"] ].

Definition withoutMalformed : ISpeaker :=
  [ speakerOf "Alice" [speach "Budget" "2013-01-02" "10"];
    speakerOf "Bob" [speach "Budget" "2013-02-01" "5"] ].

(** Files in which a speaker bears a name that every object inherits. *)
Definition tableConstructor : CsvFile :=
  [ header;
    ["constructor"; "Budget"; "2013-05-01"; "10"] ].

Definition tableToString : CsvFile :=
  [ header;
    ["toString"; "Budget"; "2013-05-01"; "10"];
    ["Bob"; "Budget"; "2013-02-01"; "50"] ].

(** Carol has the most speeches but none on security; Alice and Bob
    have one each. *)
Definition securityTable : ISpeaker :=
  [ speakerOf "Carol" [speach "Budget" "2013-01-10" "10";
                       speach "Budget" "2013-01-11" "10";
                       speach "Health" "2013-01-12" "10"];
    speakerOf "Alice" [speach "Internal Security" "2013-01-01" "100"];
    speakerOf "Bob" [speach "Internal Security" "2013-02-01" "50";
                     speach "Budget" "2013-02-02" "50"] ].


(** A file whose speakers are named, in this order, "Bob", "10", "7"
    and "Bob" again. *)
Definition tableNumbered : CsvFile :=
  [ header;
    ["Bob"; "Budget"; "2013-02-01"; "50"];
    ["10"; "Budget"; "2013-02-02"; "5"];
    ["7"; "Health"; "2013-02-03"; "5"];
    ["Bob"; "Health"; "2013-02-04"; "1"] ].

(** A host on UTC and one five hours behind it. *)
Definition hostUTC : Host := isoHost 0.
Definition hostWest : Host := isoHost (-300).

(** * Properties *)

(** Well-formedness of a table given in full. *)
Ltac wf_table_by_computation :=
  split;
  [ repeat constructor; (discriminate || reflexivity)
  | repeat constructor; discriminate ].

(** ** Header validator *)

Lemma string_eq_true (a : option string) (b : string) :
  string_eq a b = true <-> a = Some b.
Proof.
  destruct a as [s|]; simpl.
  - rewrite String.eqb_eq. split; congruence.
  - split; discriminate.
Qed.

(** C6: on a row, the validator completes, and it answers true exactly
    when the fields at the positions 0, 1, 2, 3 are the labels
    "Speaker", "Topic", "Date", "Words", compared as they are (so with
    their case); on a row with fewer than four fields it answers false.
    It returns the answer and nothing else: it changes no file. *)
Theorem validateCsvHeader_exact (row : Row) :
  exists answer : bool,
    validateCsvHeader (Some row) = Ok answer /\
    (answer = true <->
       nth_error row 0 = Some "Speaker" /\
       nth_error row 1 = Some "Topic" /\
       nth_error row 2 = Some "Date" /\
       nth_error row 3 = Some "Words") /\
    ((List.length row < 4)%nat -> answer = false).
Proof.
  eexists. split; [reflexivity|].
  unfold ColumnDefinitions.Speaker, ColumnDefinitions.Topic,
    ColumnDefinitions.Date, ColumnDefinitions.Words.
  split.
  - rewrite !andb_true_iff, !string_eq_true. tauto.
  - intros Hshort.
    assert (Hnone : nth_error row 3 = None)
      by (apply nth_error_None; lia).
    rewrite Hnone. simpl. apply andb_false_r.
Qed.

Example validateCsvHeader_case_sensitive :
  validateCsvHeader (Some ["speaker"; "Topic"; "Date"; "Words"]) = Ok false
  /\ validateCsvHeader (Some ["Speaker"; "Topic"; "Date"; "WORDS"]) = Ok false
  /\ validateCsvHeader (Some header) = Ok true.
Proof. repeat split. Qed.

(** ** Rankings over the empty table *)

(** C8: over a table without speakers both rankings answer [null]:
    neither throws, and neither names a speaker. *)
Theorem rankings_of_empty_table (host : Host) (filterOptions : IFilterOptions) :
  getLeastWordySpeaker [] = None /\
  getFilteredSpeaker host [] filterOptions = None.
Proof. split; reflexivity. Qed.

(** ** The grouper on a file without rows *)

(** C3: a file with zero rows makes the grouper throw: the validator is
    handed the absent first row and reads a field of it.  The files are
    left as they were, whatever had been grouped before. *)
Theorem sortAndGroupData_throws_on_empty_file :
  sortAndGroupData [[]] = (TypeError, [[]]) /\
  sortAndGroupData [tableA; []] = (TypeError, [tl tableA; []]) /\
  forall (rest : list CsvFile) (speakers : ISpeaker),
    groupFiles ([] :: rest) speakers = (TypeError, [] :: rest).
Proof. repeat split. Qed.

(** ** What a grouping run does to the files *)

Lemma groupFiles_files (csvFilesData : list CsvFile) :
  forall (speakers out : ISpeaker) (left : list CsvFile),
    groupFiles csvFilesData speakers = (Ok out, left) ->
    left = map afterGrouping csvFilesData.
Proof.
  induction csvFilesData as [|csvFile rest IH]; intros speakers out left H.
  - simpl in H. now inversion H.
  - simpl in H. unfold afterGrouping at 1. simpl map.
    destruct (validateCsvHeader (hd_error csvFile)) as [[|]|]; try discriminate.
    + destruct (groupRows (tl csvFile) speakers) as [speakers'|];
        try discriminate.
      destruct (groupFiles rest speakers') as [out' rest'] eqn:E.
      inversion H; subst. now rewrite (IH _ _ _ E).
    + destruct (groupFiles rest speakers) as [out' rest'] eqn:E.
      inversion H; subst. now rewrite (IH _ _ _ E).
Qed.

Lemma groupFiles_validated (csvFilesData : list CsvFile) :
  forall (speakers out : ISpeaker) (left : list CsvFile),
    groupFiles csvFilesData speakers = (Ok out, left) ->
    Forall (fun csvFile => headerValid csvFile \/ headerInvalid csvFile)
           csvFilesData.
Proof.
  induction csvFilesData as [|csvFile rest IH]; intros speakers out left H.
  - constructor.
  - simpl in H. unfold headerValid, headerInvalid.
    destruct (validateCsvHeader (hd_error csvFile)) as [[|]|] eqn:V;
      try discriminate.
    + destruct (groupRows (tl csvFile) speakers) as [speakers'|];
        try discriminate.
      destruct (groupFiles rest speakers') as [out' rest'] eqn:E.
      inversion H; subst. constructor; [now left | now apply (IH _ _ _ E)].
    + destruct (groupFiles rest speakers) as [out' rest'] eqn:E.
      inversion H; subst. constructor; [now right | now apply (IH _ _ _ E)].
Qed.

Lemma groupFiles_all_invalid (csvFilesData : list CsvFile) (speakers : ISpeaker) :
  Forall headerInvalid csvFilesData ->
  groupFiles csvFilesData speakers = (Ok speakers, csvFilesData).
Proof.
  induction 1 as [|csvFile rest Hinv _ IH]; simpl.
  - reflexivity.
  - unfold headerInvalid in Hinv. now rewrite Hinv, IH.
Qed.

Lemma headerValid_shift (csvFile : CsvFile) :
  headerValid csvFile -> tl csvFile <> csvFile.
Proof.
  unfold headerValid. destruct csvFile as [|row rows]; simpl.
  - discriminate.
  - intros _ E. apply (f_equal (@List.length Row)) in E. simpl in E. lia.
Qed.

(** C10: when a grouping run completes, every file whose first row
    passed the validation is left without that row, and every file
    whose first row failed it is left as it was; so as soon as one file
    is valid the caller's list is not what it was. *)
Theorem sortAndGroupData_shifts_valid_files
  (csvFilesData left : list CsvFile) (speakers : ISpeaker) :
  sortAndGroupData csvFilesData = (Ok speakers, left) ->
  Forall2 (fun before after =>
             (headerValid before -> after = tl before) /\
             (headerInvalid before -> after = before))
          csvFilesData left /\
  (Exists headerValid csvFilesData -> left <> csvFilesData).
Proof.
  unfold sortAndGroupData. intros H.
  apply groupFiles_files in H. subst left. split.
  - induction csvFilesData as [|csvFile rest IH]; simpl; constructor; auto.
    unfold afterGrouping, headerValid, headerInvalid.
    split; intros V; now rewrite V.
  - induction 1 as [csvFile rest V|csvFile rest _ IH]; simpl; intros E;
      inversion E as [[E1 E2]].
    + unfold afterGrouping in E1. unfold headerValid in V.
      rewrite V in E1. now apply (headerValid_shift csvFile).
    + now apply IH.
Qed.

Lemma sortAndGroupData_shifts_valid_files_witness :
  sortAndGroupData [tableA; tableB] =
    (Ok [speakerOf "Alice" [speach "Internal Security" "2013-01-01" "100"];
         speakerOf "Bob" [speach "Budget" "2013-02-01" "50"]],
     [tl tableA; tableB]) /\
  Forall2 (fun before after =>
             (headerValid before -> after = tl before) /\
             (headerInvalid before -> after = before))
          [tableA; tableB] [tl tableA; tableB] /\
  (Exists headerValid [tableA; tableB] -> [tl tableA; tableB] <> [tableA; tableB]).
Proof.
  split.
  - reflexivity.
  - apply (sortAndGroupData_shifts_valid_files [tableA; tableB]
             [tl tableA; tableB]
             [speakerOf "Alice" [speach "Internal Security" "2013-01-01" "100"];
              speakerOf "Bob" [speach "Budget" "2013-02-01" "50"]]).
    reflexivity.
Defined.

(** ** Running the evaluator twice *)

Lemma evaluate_all_invalid (host : Host) (csvFilesData : list CsvFile) :
  Forall headerInvalid csvFilesData ->
  evaluate host csvFilesData = (Ok noResult, csvFilesData).
Proof.
  intros H. unfold evaluate, sortAndGroupData.
  now rewrite (groupFiles_all_invalid _ _ H).
Qed.

Lemma evaluate_files (host : Host) (csvFilesData left : list CsvFile)
  (answers : EvaluationResult) :
  evaluate host csvFilesData = (Ok answers, left) ->
  left = map afterGrouping csvFilesData /\
  Forall (fun csvFile => headerValid csvFile \/ headerInvalid csvFile)
         csvFilesData.
Proof.
  unfold evaluate, sortAndGroupData.
  destruct (groupFiles csvFilesData []) as [[grouped|] left'] eqn:E;
    simpl; intros H; inversion H; subst.
  split; [eapply groupFiles_files | eapply groupFiles_validated]; eauto.
Qed.

(** C2, as the code has it: the first run takes the header row off
    every file that passed the validation, and the second run works on
    the files so left.  It repeats the first answers when no file had
    passed; and when in every file that passed the row after the header
    is not a header again, it answers [null] three times, whatever the
    first answers were. *)
Theorem evaluate_second_run (host : Host) (csvFilesData left : list CsvFile)
  (answers : EvaluationResult) :
  evaluate host csvFilesData = (Ok answers, left) ->
  left = map afterGrouping csvFilesData /\
  (Forall headerInvalid csvFilesData ->
   evaluate host left = (Ok answers, left)) /\
  (Forall (fun csvFile => headerValid csvFile -> headerInvalid (tl csvFile))
          csvFilesData ->
   evaluate host left = (Ok noResult, left)).
Proof.
  intros H. destruct (evaluate_files _ _ _ _ H) as [Hleft Hval].
  split; [assumption|]. split.
  - intros Hinv. rewrite (evaluate_all_invalid host _ Hinv) in H.
    assert (E : answers = noResult /\ left = csvFilesData)
      by (split; congruence).
    destruct E as [Ea El]. rewrite Ea, El.
    now apply evaluate_all_invalid.
  - intros Hnext. apply evaluate_all_invalid. subst left.
    apply Forall_map. rewrite Forall_forall in *.
    intros csvFile Hin. unfold afterGrouping.
    destruct (Hval _ Hin) as [V|V].
    + pose proof (Hnext _ Hin V) as N. unfold headerValid in V. now rewrite V.
    + pose proof V as V'. unfold headerInvalid in V. now rewrite V.
Qed.

Lemma evaluate_second_run_witness :
  evaluate hostUTC [tableA; tableB] =
    (Ok {| mostSpeaches := Some "Alice";
           mostSecurity := Some "Alice";
           leastWordy := Some "Bob" |},
     [tl tableA; tableB]) /\
  [tl tableA; tableB] = map afterGrouping [tableA; tableB] /\
  (Forall headerInvalid [tableA; tableB] ->
   evaluate hostUTC [tl tableA; tableB] =
     (Ok {| mostSpeaches := Some "Alice";
            mostSecurity := Some "Alice";
            leastWordy := Some "Bob" |},
      [tl tableA; tableB])) /\
  (Forall (fun csvFile => headerValid csvFile -> headerInvalid (tl csvFile))
          [tableA; tableB] ->
   evaluate hostUTC [tl tableA; tableB] = (Ok noResult, [tl tableA; tableB])).
Proof.
  split.
  - reflexivity.
  - apply (evaluate_second_run hostUTC [tableA; tableB] [tl tableA; tableB]
             {| mostSpeaches := Some "Alice";
                mostSecurity := Some "Alice";
                leastWordy := Some "Bob" |}).
    reflexivity.
Defined.

(** C2, as stated, fails on the files of the end-to-end example: the
    second run finds Alice's row where the header was and skips the
    file. *)
Lemma evaluate_twice_differs :
  evaluate hostUTC [tableA; tableB] =
    (Ok {| mostSpeaches := Some "Alice";
           mostSecurity := Some "Alice";
           leastWordy := Some "Bob" |},
     [tl tableA; tableB]) /\
  evaluate hostUTC [tl tableA; tableB] = (Ok noResult, [tl tableA; tableB]) /\
  {| mostSpeaches := Some "Alice";
     mostSecurity := Some "Alice";
     leastWordy := Some "Bob" |} <> noResult.
Proof. repeat split. discriminate. Qed.

(** ** The end-to-end example *)

(** On the example's files the grouping, the least wordy speaker and
    the speaker on "Internal Security" do not depend on the host; the
    speaker of 2013 is Alice on every host that reads both dates as of
    2013. *)
Lemma evaluate_example_dates_of_2013 (host : Host) :
  dateFullYear host "2013-01-01" = Num 2013 ->
  dateFullYear host "2013-02-01" = Num 2013 ->
  evaluate host [tableA; tableB] =
    (Ok {| mostSpeaches := Some "Alice";
           mostSecurity := Some "Alice";
           leastWordy := Some "Bob" |},
     [tl tableA; tableB]).
Proof.
  intros H1 H2.
  assert (G : sortAndGroupData [tableA; tableB] =
    (Ok [speakerOf "Alice" [speach "Internal Security" "2013-01-01" "100"];
         speakerOf "Bob" [speach "Budget" "2013-02-01" "50"]],
     [tl tableA; tableB])) by reflexivity.
  unfold evaluate. rewrite G.
  unfold bind, getFilteredSpeaker, filterForSpeakers, matches, speakerOf,
    speach, getFullYear.
  simpl. rewrite H1, H2. reflexivity.
Qed.

(** C9: the example on a host behind UTC.  The grouping has one speech
    for Alice and one for Bob, the least wordy speaker is Bob and the
    speaker on "Internal Security" is Alice; but "2013-01-01" is
    midnight UTC, which such a host reads as a day of 2012, so Alice
    has no speech of 2013 and the speaker of 2013 is Bob. *)
Theorem evaluate_example_behind_UTC :
  sortAndGroupData [tableA; tableB] =
    (Ok [speakerOf "Alice" [speach "Internal Security" "2013-01-01" "100"];
         speakerOf "Bob" [speach "Budget" "2013-02-01" "50"]],
     [tl tableA; tableB]) /\
  getFullYear hostWest (Some "2013-01-01") = Num 2012 /\
  evaluate hostWest [tableA; tableB] =
    (Ok {| mostSpeaches := Some "Bob";
           mostSecurity := Some "Alice";
           leastWordy := Some "Bob" |},
     [tl tableA; tableB]) /\
  evaluate hostUTC [tableA; tableB] =
    (Ok {| mostSpeaches := Some "Alice";
           mostSecurity := Some "Alice";
           leastWordy := Some "Bob" |},
     [tl tableA; tableB]).
Proof. repeat split. Qed.

(** ** Speakers named like a property of every object *)

(** C4: a second valid file names the speaker "constructor".  The read
    of [speakers["constructor"]] finds the inherited property, the
    grouper takes the branch for a known speaker and throws; no table
    is returned, and the speech is appended to no entry. *)
Theorem sortAndGroupData_throws_on_constructor :
  get "constructor" (@nil (string * Speaker)) = Inherited /\
  sortAndGroupData [tableA; tableConstructor] =
    (TypeError, [tl tableA; tl tableConstructor]).
Proof. split; reflexivity. Qed.

(** C7: a file with a valid header and two data rows, the first for a
    speaker named "toString": the grouper throws at that row, so no
    table is returned and neither row is counted under a speaker. *)
Theorem sortAndGroupData_throws_on_toString :
  validateCsvHeader (hd_error tableToString) = Ok true /\
  List.length (tl tableToString) = 2%nat /\
  sortAndGroupData [tableToString] = (TypeError, [tl tableToString]).
Proof. repeat split. Qed.

(** ** Word counts that do not parse *)

Lemma totalWords_from_NaN (speaches : list ISpeach) :
  fold_left (fun previousValue currentValue =>
               add previousValue (parseInt (words currentValue)))
            speaches NaN = NaN.
Proof. induction speaches as [|s l IH]; simpl; auto. Qed.

Lemma add_NaN_r (a : number) : add a NaN = NaN.
Proof. now destruct a. Qed.

Lemma totalWords_malformed (speaches : list ISpeach) (malformed : ISpeach) :
  In malformed speaches ->
  parseInt (words malformed) = NaN ->
  totalWords speaches = NaN.
Proof.
  unfold totalWords. generalize (Num 0).
  induction speaches as [|s l IH]; intros start Hin Hnan.
  - contradiction.
  - simpl. destruct Hin as [->|Hin].
    + rewrite Hnan, add_NaN_r. apply totalWords_from_NaN.
    + now apply IH.
Qed.

Lemma sub_NaN (a b : number) :
  a = NaN \/ b = NaN -> sortCompare (sub a b) = 0%Z.
Proof. intros [->| ->]; [|destruct a]; reflexivity. Qed.

Lemma getOwn_absent {V : Type} (k : string) (o : object V) :
  ~ In k (map fst o) -> getOwn k o = None.
Proof.
  induction o as [|[k' v] o IH]; simpl; intros H.
  - reflexivity.
  - destruct (String.eqb_spec k k') as [->|_].
    + exfalso. apply H. now left.
    + apply IH. intros Hin. apply H. now right.
Qed.

Lemma create_last {V : Type} (k : string) (v : V) (o : object V) :
  (forall k', In k' (map fst o) -> precedes k k' = false) ->
  create k v o = o ++ [(k, v)].
Proof.
  induction o as [|[k' v'] o IH]; simpl; intros H.
  - reflexivity.
  - rewrite (H k') by now left.
    f_equal. apply IH. intros k'' Hin. apply H. now right.
Qed.

Lemma set_last {V : Type} (k : string) (v : V) (o : object V) :
  (forall k', In k' (map fst o) -> k' <> k /\ precedes k k' = false) ->
  set k v o = o ++ [(k, v)].
Proof.
  intros H. unfold set. rewrite getOwn_absent.
  - apply create_last. intros k' Hin. now apply H.
  - intros Hin. now destruct (H _ Hin).
Qed.

Lemma setNumber_last (k : string) (n : number) (o : object number) :
  k <> "__proto__" ->
  (forall k', In k' (map fst o) -> k' <> k /\ precedes k k' = false) ->
  setNumber k n o = o ++ [(k, n)].
Proof.
  intros Hk H. unfold setNumber.
  destruct (String.eqb_spec k "__proto__") as [E|_]; [contradiction|].
  now apply set_last.
Qed.

(** C1, as the code has it: a word count that does not parse (the empty
    string is one) is NaN, and it makes the total of its speaker NaN
    whatever the speaker's other speeches; nothing throws.  The
    difference of that total with any other is NaN, which the sort
    takes for a tie: of two speakers one of whom has such a speech, the
    first of the table is the least wordy, whatever the totals. *)
Theorem getLeastWordySpeaker_malformed_words :
  parseInt (Some "") = NaN /\
  (forall (speaches : list ISpeach) (malformed : ISpeach),
      In malformed speaches ->
      parseInt (words malformed) = NaN ->
      totalWords speaches = NaN) /\
  (forall first second : string * Speaker,
      wf_table [first; second] ->
      totalWords (speaches (snd first)) = NaN \/
      totalWords (speaches (snd second)) = NaN ->
      getLeastWordySpeaker [first; second] = Some (fst first)).
Proof.
  split; [reflexivity|]. split; [exact totalWords_malformed|].
  intros [k1 s1] [k2 s2] [Henum Hnamed] Hnan.
  apply Forall_cons_iff in Hnamed. destruct Hnamed as [[N1 P1] Hnamed].
  apply Forall_cons_iff in Hnamed. destruct Hnamed as [[N2 P2] _].
  inversion Henum as [|k l Hfirst _]; subst.
  apply Forall_cons_iff in Hfirst. destruct Hfirst as [[Hne Hprec] _].
  simpl in *.
  unfold getLeastWordySpeaker, speakersByWords. simpl.
  rewrite N1, N2.
  rewrite (setNumber_last k1 _ []) by (auto; intros ? []).
  cbn [app]. rewrite (setNumber_last k2 _ [_]).
  - simpl. now rewrite (sub_NaN _ _ Hnan).
  - assumption.
  - intros k' [<-|[]]. auto.
Qed.

(** C1, as stated, fails: Alice has a speech with an empty word count
    and one of 10 words, Bob one of 5 words.  Alice's total is NaN, not
    10, and she is selected; without the malformed speech it is Bob. *)
Lemma getLeastWordySpeaker_malformed_counterexample :
  totalWords (speaches (snd (speakerOf "Alice"
     [speach "Budget" "2013-01-01" ""; speach "Budget" "2013-01-02" "10"])))
    = NaN /\
  getLeastWordySpeaker withMalformed = Some "Alice" /\
  getLeastWordySpeaker withoutMalformed = Some "Bob" /\
  getLeastWordySpeaker withMalformed <> getLeastWordySpeaker withoutMalformed.
Proof. repeat split. discriminate. Qed.

(** ** The head of a sorted array *)

Section SortHead.
Context {A : Type} (comparefn : A -> A -> number) (weight : A -> Z).

(** When the comparator orders the elements of [l] by a weight, the
    sorted array starts with the first element of least weight. *)
Lemma sort_head_first_least (l : list A) :
  (forall x y, In x l -> In y l ->
     (sortCompare (comparefn x y) <= 0)%Z <-> (weight x <= weight y)%Z) ->
  l <> [] ->
  exists before x after,
    l = before ++ x :: after /\
    hd_error (sort comparefn l) = Some x /\
    (forall y, In y before -> (weight x < weight y)%Z) /\
    (forall y, In y after -> (weight x <= weight y)%Z).
Proof.
  induction l as [|a l IH]; intros Hcmp Hne; [contradiction|].
  destruct l as [|b l'].
  - exists [], a, []. simpl. repeat split; intros y [].
  - destruct IH as (before & x & after & El & Hhd & Hbefore & Hafter).
    + intros x y Hx Hy. apply Hcmp; now right.
    + discriminate.
    + assert (Hx : In x (b :: l'))
        by (rewrite El; apply in_or_app; right; now left).
      change (sort comparefn (a :: b :: l'))
        with (insert comparefn a (sort comparefn (b :: l'))).
      destruct (sort comparefn (b :: l')) as [|h sorted]; [discriminate|].
      simpl in Hhd. injection Hhd as ->. simpl insert.
      destruct (Z.leb_spec (sortCompare (comparefn a x)) 0) as [Hle|Hgt].
      * exists [], a, (b :: l').
        split; [reflexivity|]. split; [reflexivity|]. split.
        -- intros y [].
        -- intros y Hy.
           assert (weight a <= weight x)%Z
             by (apply Hcmp; [now left | now right | exact Hle]).
           rewrite El in Hy. apply in_app_or in Hy.
           destruct Hy as [Hy|[<-|Hy]].
           ++ specialize (Hbefore _ Hy). lia.
           ++ lia.
           ++ specialize (Hafter _ Hy). lia.
      * exists (a :: before), x, after. rewrite El.
        split; [reflexivity|]. split; [reflexivity|]. split.
        -- intros y [Hy|Hy]; [subst y|now apply Hbefore].
           destruct (Z.le_gt_cases (weight a) (weight x)) as [Hw|Hw];
             [|lia].
           apply Hcmp in Hw; [lia | now left | now right].
        -- exact Hafter.
Qed.
End SortHead.

(** ** The table [filterForSpeakers] builds *)

Lemma enumerated_middle (l1 l2 : list string) (a : string) :
  enumerated (l1 ++ a :: l2) ->
  (forall x, In x l1 -> x <> a /\ precedes a x = false) /\
  enumerated (l1 ++ l2).
Proof.
  unfold enumerated. induction l1 as [|b l1 IH]; simpl; intros H.
  - inversion H; subst. split; [intros x []|assumption].
  - inversion H as [|? ? Hb Hrest]; subst.
    destruct (IH Hrest) as [Hl1 Henum].
    apply Forall_app in Hb. destruct Hb as [Hb1 Hb2].
    apply Forall_cons_iff in Hb2. destruct Hb2 as [Hba Hb2].
    split.
    + intros x [<-|Hx]; [exact Hba | now apply Hl1].
    + constructor; [|assumption]. apply Forall_app. now split.
Qed.

Lemma filterForSpeakers_from (host : Host) (filterOptions : IFilterOptions)
  (speakers : ISpeaker) :
  forall filteredSpeakers : filteredSpeakerType,
    enumerated (map fst filteredSpeakers ++ map fst speakers) ->
    Forall named speakers ->
    fold_left
      (fun filteredSpeakers (entry : string * Speaker) =>
         let speakersName := name (snd entry) in
         let filteredSpeaches :=
           filter (matches host filterOptions) (speaches (snd entry)) in
         if (0 <? List.length filteredSpeaches)%nat
         then setNumber (ToString speakersName)
                        (Num (Z.of_nat (List.length filteredSpeaches)))
                        filteredSpeakers
         else filteredSpeakers)
      speakers filteredSpeakers
    = filteredSpeakers ++ selected host filterOptions speakers.
Proof.
  induction speakers as [|[k s] speakers IH];
    intros filteredSpeakers Henum Hnamed.
  - simpl. now rewrite app_nil_r.
  - apply Forall_cons_iff in Hnamed. destruct Hnamed as [[Hname Hproto] Hnamed].
    simpl in Hname, Hproto, Henum.
    destruct (enumerated_middle _ _ _ Henum) as [Hnew Hskip].
    cbn [fold_left selected flat_map snd fst]. unfold matchCount.
    destruct (0 <? List.length (filter (matches host filterOptions) (speaches s)))%nat.
    + rewrite Hname, setNumber_last by assumption.
      rewrite IH.
      * now rewrite <- app_assoc.
      * now rewrite map_app, <- app_assoc.
      * assumption.
    + now apply IH.
Qed.

Lemma filterForSpeakers_selected (host : Host) (filterOptions : IFilterOptions)
  (speakers : ISpeaker) :
  wf_table speakers ->
  filterForSpeakers host speakers filterOptions
  = selected host filterOptions speakers.
Proof.
  intros [Henum Hnamed]. unfold filterForSpeakers.
  now rewrite filterForSpeakers_from.
Qed.

Lemma selected_split (host : Host) (filterOptions : IFilterOptions)
  (speakers : ISpeaker) :
  forall (b a : filteredSpeakerType) (x : string * number),
    selected host filterOptions speakers = b ++ x :: a ->
    exists before s after,
      speakers = before ++ (fst x, s) :: after /\
      snd x = Num (Z.of_nat (matchCount host filterOptions s)) /\
      (0 < matchCount host filterOptions s)%nat /\
      selected host filterOptions before = b /\
      selected host filterOptions after = a.
Proof.
  induction speakers as [|[k s] speakers IH]; intros b a x H.
  - destruct b; discriminate.
  - cbn [selected flat_map fst snd] in H.
    destruct (Nat.ltb_spec 0 (matchCount host filterOptions s)) as [Hpos|Hzero].
    + destruct b as [|y b]; simpl in H; injection H as Hx Hrest.
      * exists [], s, speakers. subst x. simpl. auto.
      * destruct (IH _ _ _ Hrest) as (before & s' & after & E & V & P & B & A).
        exists ((k, s) :: before), s', after. subst speakers.
        repeat split; auto.
        cbn [selected flat_map fst snd].
        apply Nat.ltb_lt in Hpos. rewrite Hpos. simpl.
        now rewrite <- Hx, <- B.
    + simpl in H.
      destruct (IH _ _ _ H) as (before & s' & after & E & V & P & B & A).
      exists ((k, s) :: before), s', after. subst speakers.
      repeat split; auto.
      cbn [selected flat_map fst snd].
      assert (Hz : (0 <? matchCount host filterOptions s)%nat = false)
        by (apply Nat.ltb_ge; lia).
      now rewrite Hz.
Qed.

Lemma selected_In (host : Host) (filterOptions : IFilterOptions)
  (speakers : ISpeaker) (entry : string * Speaker) :
  In entry speakers ->
  (0 < matchCount host filterOptions (snd entry))%nat ->
  In (fst entry, Num (Z.of_nat (matchCount host filterOptions (snd entry))))
     (selected host filterOptions speakers).
Proof.
  intros Hin Hpos. unfold selected. apply in_flat_map.
  exists entry. split; [assumption|].
  apply Nat.ltb_lt in Hpos. rewrite Hpos. now left.
Qed.

Lemma selected_values (host : Host) (filterOptions : IFilterOptions)
  (speakers : ISpeaker) (x : string * number) :
  In x (selected host filterOptions speakers) ->
  exists n : nat, snd x = Num (Z.of_nat n).
Proof.
  unfold selected. rewrite in_flat_map. intros (entry & _ & H).
  destruct (0 <? matchCount host filterOptions (snd entry))%nat.
  - destruct H as [<-|[]]. eexists. reflexivity.
  - destruct H.
Qed.

Lemma selected_nil (host : Host) (filterOptions : IFilterOptions)
  (speakers : ISpeaker) :
  selected host filterOptions speakers = [] <->
  forall entry, In entry speakers ->
    matchCount host filterOptions (snd entry) = 0%nat.
Proof.
  split.
  - intros E entry Hin.
    destruct (Nat.eq_dec (matchCount host filterOptions (snd entry)) 0)
      as [|Hpos]; [assumption|].
    assert (Hsel := selected_In host filterOptions speakers entry Hin).
    rewrite E in Hsel. destruct Hsel. lia.
  - intros Hzero. induction speakers as [|entry speakers IH].
    + reflexivity.
    + cbn [selected flat_map]. rewrite (Hzero entry) by now left.
      simpl. apply IH. intros e He. apply Hzero. now right.
Qed.

(** ** The speaker with the most matching speeches *)

Lemma getFilteredSpeaker_selected (host : Host) (filterOptions : IFilterOptions)
  (speakers : ISpeaker) :
  wf_table speakers ->
  getFilteredSpeaker host speakers filterOptions =
  match selected host filterOptions speakers with
  | [] => None
  | _ :: _ =>
      option_map fst
        (hd_error (sort (fun a b => sub (snd b) (snd a))
                        (selected host filterOptions speakers)))
  end.
Proof.
  intros Hwf. unfold getFilteredSpeaker.
  rewrite (filterForSpeakers_selected _ _ _ Hwf).
  destruct (selected host filterOptions speakers) as [|x l]; [reflexivity|].
  now destruct (sort _ (x :: l)).
Qed.

(** C5: over a speaker table, the answer is [null] exactly when no
    speaker has a matching speech; otherwise it is the name of a speaker
    with at least one matching speech, whose count no other speaker
    exceeds, and which every speaker enumerated before it falls short
    of: speakers without a match are out whatever else they have, the
    greatest count wins, and among equals the first of the enumeration
    wins. *)
Theorem getFilteredSpeaker_most_matches (host : Host)
  (filterOptions : IFilterOptions) (speakers : ISpeaker) :
  wf_table speakers ->
  (getFilteredSpeaker host speakers filterOptions = None <->
   forall entry, In entry speakers ->
     matchCount host filterOptions (snd entry) = 0%nat) /\
  (forall winner : string,
     getFilteredSpeaker host speakers filterOptions = Some winner ->
     exists before s after,
       speakers = before ++ (winner, s) :: after /\
       (0 < matchCount host filterOptions s)%nat /\
       (forall entry, In entry before ->
          (matchCount host filterOptions (snd entry)
           < matchCount host filterOptions s)%nat) /\
       (forall entry, In entry after ->
          (matchCount host filterOptions (snd entry)
           <= matchCount host filterOptions s)%nat)).
Proof.
  intros Hwf. rewrite (getFilteredSpeaker_selected _ _ _ Hwf).
  rewrite <- selected_nil.
  destruct (selected host filterOptions speakers) as [|x0 l] eqn:Esel.
  - split; [tauto | discriminate].
  - destruct (sort_head_first_least
                (fun a b : string * number => sub (snd b) (snd a))
                (fun e => match snd e with Num z => (- z)%Z | NaN => 0%Z end)
                (x0 :: l))
      as (b & x & a & El & Hhd & Hb & Ha).
    + intros x y Hx Hy. rewrite <- Esel in Hx, Hy.
      destruct (selected_values _ _ _ _ Hx) as [n ->].
      destruct (selected_values _ _ _ _ Hy) as [m ->].
      simpl. lia.
    + discriminate.
    + rewrite Hhd. simpl. split; [split; discriminate|].
      intros winner [= <-].
      rewrite El in Esel.
      destruct (selected_split _ _ _ _ _ _ Esel)
        as (before & s & after & Es & Vx & Pos & Eb & Ea).
      exists before, s, after. repeat split; try assumption.
      * intros entry Hin.
        destruct (Nat.eq_dec (matchCount host filterOptions (snd entry)) 0)
          as [Z0|Hpos]; [lia|].
        assert (Hsel : In (fst entry,
                           Num (Z.of_nat (matchCount host filterOptions (snd entry))))
                          b)
          by (rewrite <- Eb; apply selected_In; [assumption | lia]).
        specialize (Hb _ Hsel). rewrite Vx in Hb. simpl in Hb. lia.
      * intros entry Hin.
        destruct (Nat.eq_dec (matchCount host filterOptions (snd entry)) 0)
          as [Z0|Hpos]; [lia|].
        assert (Hsel : In (fst entry,
                           Num (Z.of_nat (matchCount host filterOptions (snd entry))))
                          a)
          by (rewrite <- Ea; apply selected_In; [assumption | lia]).
        specialize (Ha _ Hsel). rewrite Vx in Ha. simpl in Ha. lia.
Qed.

Lemma getFilteredSpeaker_most_matches_witness :
  wf_table securityTable /\
  getFilteredSpeaker hostUTC securityTable (byTopic "Internal Security")
    = Some "Alice" /\
  (getFilteredSpeaker hostUTC securityTable (byTopic "Internal Security") = None <->
   forall entry, In entry securityTable ->
     matchCount hostUTC (byTopic "Internal Security") (snd entry) = 0%nat) /\
  (forall winner : string,
     getFilteredSpeaker hostUTC securityTable (byTopic "Internal Security")
       = Some winner ->
     exists before s after,
       securityTable = before ++ (winner, s) :: after /\
       (0 < matchCount hostUTC (byTopic "Internal Security") s)%nat /\
       (forall entry, In entry before ->
          (matchCount hostUTC (byTopic "Internal Security") (snd entry)
           < matchCount hostUTC (byTopic "Internal Security") s)%nat) /\
       (forall entry, In entry after ->
          (matchCount hostUTC (byTopic "Internal Security") (snd entry)
           <= matchCount hostUTC (byTopic "Internal Security") s)%nat)).
Proof.
  split; [wf_table_by_computation|]. split; [reflexivity|].
  apply (getFilteredSpeaker_most_matches hostUTC
           (byTopic "Internal Security") securityTable).
  wf_table_by_computation.
Defined.

(** ** Objects keep their enumeration order *)

Lemma precedes_asym (k k' : string) :
  precedes k k' = true -> precedes k' k = false.
Proof.
  unfold precedes.
  destruct (arrayIndex k) as [i|], (arrayIndex k') as [j|];
    try reflexivity; try discriminate.
  intros H. apply Z.ltb_lt in H. apply Z.ltb_ge. lia.
Qed.

Lemma precedes_before (k k' r : string) :
  precedes k k' = true -> precedes r k' = false -> precedes r k = false.
Proof.
  unfold precedes.
  destruct (arrayIndex k) as [i|], (arrayIndex k') as [j|],
    (arrayIndex r) as [m|]; try reflexivity; try discriminate.
  intros H1 H2. apply Z.ltb_lt in H1. apply Z.ltb_ge in H2.
  apply Z.ltb_ge. lia.
Qed.

Section ObjectFacts.
Context {V : Type}.
Implicit Types (o : object V) (k : string) (v : V).

Lemma getOwn_In k o v : getOwn k o = Some v -> In (k, v) o.
Proof.
  induction o as [|[k' v'] o IH]; simpl; [discriminate|].
  destruct (String.eqb_spec k k') as [->|_].
  - intros [= ->]. now left.
  - intros H. right. now apply IH.
Qed.

Lemma getOwn_None k o : getOwn k o = None -> ~ In k (map fst o).
Proof.
  induction o as [|[k' v'] o IH]; simpl; [tauto|].
  destruct (String.eqb_spec k k') as [->|Hne]; [discriminate|].
  intros H [E|Hin]; [congruence | now apply IH].
Qed.

Lemma update_keys k v o : map fst (update k v o) = map fst o.
Proof.
  induction o as [|[k' v'] o IH]; simpl; [reflexivity|].
  destruct (String.eqb_spec k k') as [->|_]; simpl; [reflexivity|].
  now rewrite IH.
Qed.

Lemma create_keys k v o x :
  In x (map fst (create k v o)) <-> x = k \/ In x (map fst o).
Proof.
  induction o as [|[k' v'] o IH]; simpl.
  - intuition congruence.
  - destruct (precedes k k'); simpl; [intuition congruence|].
    rewrite IH. intuition congruence.
Qed.

Lemma create_enumerated k v o :
  ~ In k (map fst o) ->
  enumerated (map fst o) ->
  enumerated (map fst (create k v o)).
Proof.
  unfold enumerated.
  induction o as [|[k' v'] o IH]; simpl; intros Hnew Henum.
  - repeat constructor.
  - inversion Henum as [|? ? Hk' Hrest]; subst.
    destruct (precedes k k') eqn:P; simpl.
    + constructor; [|assumption].
      constructor.
      * split; [intros ->; apply Hnew; now left | now apply precedes_asym].
      * rewrite Forall_forall in *. intros r Hr. split.
        -- intros ->. apply Hnew. now right.
        -- apply (precedes_before k k' r P). now apply Hk'.
    + constructor.
      * rewrite Forall_forall in *. intros r Hr.
        apply create_keys in Hr. destruct Hr as [->|Hr].
        -- split; [intros ->; apply Hnew; now left | assumption].
        -- now apply Hk'.
      * apply IH; [|assumption]. intros Hin. apply Hnew. now right.
Qed.

Lemma set_enumerated k v o :
  enumerated (map fst o) -> enumerated (map fst (set k v o)).
Proof.
  intros H. unfold set. destruct (getOwn k o) eqn:E.
  - now rewrite update_keys.
  - apply create_enumerated; [now apply getOwn_None | assumption].
Qed.

Lemma update_Forall (P : string * V -> Prop) k v o :
  P (k, v) -> Forall P o -> Forall P (update k v o).
Proof.
  intros Hkv. induction 1 as [|[k' v'] o Hx Ho IH]; simpl; [constructor|].
  destruct (String.eqb k k'); constructor; assumption.
Qed.

Lemma create_Forall (P : string * V -> Prop) k v o :
  P (k, v) -> Forall P o -> Forall P (create k v o).
Proof.
  intros Hkv. induction 1 as [|[k' v'] o Hx Ho IH]; simpl.
  - now repeat constructor.
  - destruct (precedes k k'); repeat constructor; assumption.
Qed.

Lemma set_Forall (P : string * V -> Prop) k v o :
  P (k, v) -> Forall P o -> Forall P (set k v o).
Proof.
  intros. unfold set.
  destruct (getOwn k o); [now apply update_Forall | now apply create_Forall].
Qed.

Lemma getOwn_update k v o k' :
  getOwn k o <> None ->
  getOwn k' (update k v o) = if String.eqb k' k then Some v else getOwn k' o.
Proof.
  induction o as [|[k0 v0] o IH]; simpl; [congruence|].
  destruct (String.eqb_spec k k0) as [->|Hne]; simpl.
  - intros _. now destruct (String.eqb k' k0).
  - intros H. rewrite (IH H).
    destruct (String.eqb_spec k' k0) as [->|_]; [|reflexivity].
    destruct (String.eqb_spec k0 k); congruence.
Qed.

Lemma getOwn_create k v o k' :
  getOwn k o = None ->
  getOwn k' (create k v o) = if String.eqb k' k then Some v else getOwn k' o.
Proof.
  induction o as [|[k0 v0] o IH]; simpl; [reflexivity|].
  destruct (String.eqb_spec k k0) as [->|Hne]; [discriminate|].
  intros H. destruct (precedes k k0); simpl; [reflexivity|].
  rewrite (IH H).
  destruct (String.eqb_spec k' k0) as [->|_]; [|reflexivity].
  destruct (String.eqb_spec k0 k); congruence.
Qed.

Lemma getOwn_set k v o k' :
  getOwn k' (set k v o) = if String.eqb k' k then Some v else getOwn k' o.
Proof.
  unfold set. destruct (getOwn k o) eqn:E.
  - apply getOwn_update. congruence.
  - now apply getOwn_create.
Qed.
End ObjectFacts.

(** ** What the grouper returns *)

Lemma grouped_wf_table (speakers : ISpeaker) :
  grouped speakers -> wf_table speakers.
Proof.
  intros [Henum Hall]. split; [assumption|].
  eapply Forall_impl; [|exact Hall].
  intros entry [Hname Hinh]. split; [assumption|].
  intros E. rewrite E in Hinh. discriminate.
Qed.

Lemma speachesOf_set (k key : string) (entry : Speaker) (speakers : ISpeaker) :
  speachesOf k (set key entry speakers)
  = if String.eqb k key then speaches entry else speachesOf k speakers.
Proof.
  unfold speachesOf. rewrite getOwn_set. now destruct (String.eqb k key).
Qed.

Lemma records_create (k : string) (entry : Speaker) (speakers : ISpeaker) :
  records (create k entry speakers)
  = (records speakers + List.length (speaches entry))%nat.
Proof.
  unfold records. induction speakers as [|[k' e'] speakers IH]; simpl.
  - lia.
  - destruct (precedes k k'); simpl; [lia|]. rewrite IH. lia.
Qed.

Lemma records_update (k : string) (old entry : Speaker) (speakers : ISpeaker) :
  getOwn k speakers = Some old ->
  (records (update k entry speakers) + List.length (speaches old))%nat
  = (records speakers + List.length (speaches entry))%nat.
Proof.
  unfold records. induction speakers as [|[k' e'] speakers IH]; simpl.
  - discriminate.
  - destruct (String.eqb_spec k k') as [->|_]; simpl.
    + intros [= ->]. lia.
    + intros H. specialize (IH H). lia.
Qed.

(** One row: the grouper throws exactly on a name that objects
    inherit, and otherwise puts the speech of the row at the end of the
    speeches under the row's key, and nowhere else. *)
Lemma groupRow_spec (speakers : ISpeaker) (rowData : Row) :
  grouped speakers ->
  if inherited (speakerKey rowData)
  then groupRow speakers rowData = TypeError
  else exists speakers',
      groupRow speakers rowData = Ok speakers' /\
      grouped speakers' /\
      (forall k, speachesOf k speakers'
                 = speachesOf k speakers
                   ++ (if String.eqb k (speakerKey rowData)
                       then [speachOf rowData] else [])) /\
      records speakers' = S (records speakers).
Proof.
  intros [Henum Hall]. unfold groupRow, get.
  fold (speakerKey rowData).
  destruct (getOwn (speakerKey rowData) speakers) as [entry|] eqn:Eown.
  - pose proof (getOwn_In _ _ _ Eown) as Hin.
    rewrite Forall_forall in Hall.
    destruct (Hall _ Hin) as [Hname Hinh]. simpl in Hname, Hinh.
    rewrite Hinh. eexists. split; [reflexivity|]. split; [|split].
    + split; [now apply set_enumerated|].
      apply set_Forall; [now split | now apply Forall_forall].
    + intros k. rewrite speachesOf_set. simpl.
      destruct (String.eqb_spec k (speakerKey rowData)) as [->|_].
      * unfold speachesOf. now rewrite Eown.
      * now rewrite app_nil_r.
    + unfold set. rewrite Eown.
      pose proof (records_update (speakerKey rowData) entry
                    {| name := name entry;
                       speaches := speaches entry ++ [speachOf rowData] |}
                    speakers Eown) as R.
      simpl in R. rewrite length_app in R. simpl in R. lia.
  - destruct (inherited (speakerKey rowData)) eqn:Hinh; [reflexivity|].
    eexists. split; [reflexivity|]. split; [|split].
    + split; [now apply set_enumerated|].
      apply set_Forall; [now split | assumption].
    + intros k. rewrite speachesOf_set. simpl.
      destruct (String.eqb_spec k (speakerKey rowData)) as [->|_].
      * unfold speachesOf. now rewrite Eown.
      * now rewrite app_nil_r.
    + unfold set. rewrite Eown, records_create. simpl. lia.
Qed.

Lemma groupRows_spec (rows : list Row) :
  forall speakers : ISpeaker,
    grouped speakers ->
    Forall (fun rowData => inherited (speakerKey rowData) = false) rows ->
    exists speakers',
      groupRows rows speakers = Ok speakers' /\
      grouped speakers' /\
      (forall k, speachesOf k speakers'
                 = speachesOf k speakers
                   ++ map speachOf
                        (filter (fun rowData => String.eqb (speakerKey rowData) k)
                                rows)) /\
      records speakers' = (records speakers + List.length rows)%nat.
Proof.
  induction rows as [|rowData rows IH]; intros speakers Hinv Hrows.
  - exists speakers. simpl. repeat split; try apply Hinv.
    + intros k. now rewrite app_nil_r.
    + lia.
  - apply Forall_cons_iff in Hrows. destruct Hrows as [Hrow Hrows].
    pose proof (groupRow_spec speakers rowData Hinv) as Hstep.
    rewrite Hrow in Hstep.
    destruct Hstep as (speakers1 & E1 & Hinv1 & Hsp1 & Hrec1).
    destruct (IH speakers1 Hinv1 Hrows) as (speakers2 & E2 & Hinv2 & Hsp2 & Hrec2).
    exists speakers2. simpl. rewrite E1. simpl. rewrite E2.
    repeat split; try apply Hinv2.
    + intros k. rewrite Hsp2, Hsp1, <- app_assoc. f_equal.
      rewrite (String.eqb_sym k). now destruct (String.eqb (speakerKey rowData) k).
    + lia.
Qed.

Lemma groupRows_throws (rows : list Row) :
  forall speakers : ISpeaker,
    grouped speakers ->
    Exists (fun rowData => inherited (speakerKey rowData) = true) rows ->
    groupRows rows speakers = TypeError.
Proof.
  induction rows as [|rowData rows IH]; intros speakers Hinv Hex.
  - inversion Hex.
  - simpl. pose proof (groupRow_spec speakers rowData Hinv) as Hstep.
    destruct (inherited (speakerKey rowData)) eqn:Hinh.
    + now rewrite Hstep.
    + destruct Hstep as (speakers1 & E1 & Hinv1 & _). rewrite E1. simpl.
      apply IH; [assumption|].
      inversion Hex as [? ? Hhere|? ? Hlater]; subst; [congruence|assumption].
Qed.

Lemma rows_inherited_or_not (rows : list Row) :
  Forall (fun rowData => inherited (speakerKey rowData) = false) rows \/
  Exists (fun rowData => inherited (speakerKey rowData) = true) rows.
Proof.
  induction rows as [|rowData rows [IH|IH]].
  - left. constructor.
  - destruct (inherited (speakerKey rowData)) eqn:Hinh.
    + right. now constructor.
    + left. now constructor.
  - right. now constructor 2.
Qed.

Lemma groupFiles_spec (csvFilesData : list CsvFile) :
  forall speakers : ISpeaker,
    grouped speakers ->
    groupable csvFilesData ->
    exists speakers',
      groupFiles csvFilesData speakers
        = (Ok speakers', map afterGrouping csvFilesData) /\
      grouped speakers' /\
      (forall k, speachesOf k speakers'
                 = speachesOf k speakers
                   ++ map speachOf
                        (filter (fun rowData => String.eqb (speakerKey rowData) k)
                                (dataRows csvFilesData))) /\
      records speakers'
        = (records speakers + List.length (dataRows csvFilesData))%nat.
Proof.
  induction csvFilesData as [|csvFile rest IH]; intros speakers Hinv [Hrows Hnames].
  - exists speakers. simpl. repeat split; try apply Hinv.
    + intros k. now rewrite app_nil_r.
    + lia.
  - apply Forall_cons_iff in Hrows. destruct Hrows as [Hfirst Hrows].
    cbn [dataRows flat_map] in Hnames. fold (dataRows rest) in Hnames.
    apply Forall_app in Hnames. destruct Hnames as [Hhere Hlater].
    cbn [groupFiles map dataRows flat_map]. fold (dataRows rest).
    unfold afterGrouping at 1.
    destruct csvFile as [|first rows]; [contradiction|].
    cbn [hd_error tl] in *.
    destruct (validateCsvHeader (Some first)) as [[|]|] eqn:V;
      [| |discriminate].
    + destruct (groupRows_spec rows speakers Hinv Hhere)
        as (speakers1 & E1 & Hinv1 & Hsp1 & Hrec1).
      destruct (IH speakers1 Hinv1 (conj Hrows Hlater))
        as (speakers2 & E2 & Hinv2 & Hsp2 & Hrec2).
      exists speakers2. rewrite E1, E2.
      repeat split; try apply Hinv2.
      * intros k. now rewrite Hsp2, Hsp1, filter_app, map_app, app_assoc.
      * rewrite length_app. lia.
    + destruct (IH speakers Hinv (conj Hrows Hlater))
        as (speakers2 & E2 & Hinv2 & Hsp2 & Hrec2).
      exists speakers2. rewrite E2.
      repeat split; try apply Hinv2; assumption.
Qed.

Lemma groupFiles_completes (csvFilesData : list CsvFile) :
  forall (speakers out : ISpeaker) (left : list CsvFile),
    grouped speakers ->
    groupFiles csvFilesData speakers = (Ok out, left) ->
    groupable csvFilesData.
Proof.
  induction csvFilesData as [|csvFile rest IH];
    intros speakers out left Hinv H.
  - split; constructor.
  - cbn [groupFiles] in H. unfold groupable.
    cbn [dataRows flat_map]. fold (dataRows rest).
    destruct csvFile as [|first rows]; [discriminate|].
    cbn [hd_error tl] in *.
    destruct (validateCsvHeader (Some first)) as [[|]|] eqn:V;
      [| |discriminate].
    + destruct (rows_inherited_or_not rows) as [Hok|Hbad].
      * destruct (groupRows_spec rows speakers Hinv Hok)
          as (speakers1 & E1 & Hinv1 & _).
        rewrite E1 in H.
        destruct (groupFiles rest speakers1) as [out' left'] eqn:E.
        injection H as -> <-.
        destruct (IH _ _ _ Hinv1 E) as [Hrows Hnames].
        split; [constructor; [discriminate|assumption]|].
        apply Forall_app. now split.
      * rewrite (groupRows_throws rows speakers Hinv Hbad) in H.
        discriminate.
    + destruct (groupFiles rest speakers) as [out' left'] eqn:E.
      injection H as -> <-.
      destruct (IH _ _ _ Hinv E) as [Hrows Hnames].
      split; [constructor; [discriminate|assumption]|assumption].
Qed.

Lemma grouped_nil : grouped [].
Proof. split; constructor. Qed.

(** X11: on the inputs on which it completes, the grouper does what C4
    and C7 say: the files come out as [afterGrouping] leaves them, the
    table is a speaker table, under every key stand the speeches of the
    data rows with that speaker field, in input order across the valid
    files, and the table holds as many speeches as there are data
    rows. *)
Theorem sortAndGroupData_groups (csvFilesData : list CsvFile) :
  groupable csvFilesData ->
  exists speakers,
    sortAndGroupData csvFilesData
      = (Ok speakers, map afterGrouping csvFilesData) /\
    wf_table speakers /\
    (forall k, speachesOf k speakers
               = map speachOf
                   (filter (fun rowData => String.eqb (speakerKey rowData) k)
                           (dataRows csvFilesData))) /\
    records speakers = List.length (dataRows csvFilesData).
Proof.
  intros H.
  destruct (groupFiles_spec csvFilesData [] grouped_nil H)
    as (speakers & E & Hinv & Hsp & Hrec).
  exists speakers. repeat split; try apply (grouped_wf_table _ Hinv); auto.
Qed.

(** X12: the grouper completes exactly on the inputs in which every
    file has a first row and no data row under a valid header has a
    speaker field that names a property of [Object.prototype]; on every
    other input it throws. *)
Theorem sortAndGroupData_completes_iff (csvFilesData : list CsvFile) :
  (exists speakers left, sortAndGroupData csvFilesData = (Ok speakers, left))
  <-> groupable csvFilesData.
Proof.
  split.
  - intros (speakers & left & H).
    eapply groupFiles_completes; [exact grouped_nil | exact H].
  - intros H.
    destruct (groupFiles_spec csvFilesData [] grouped_nil H)
      as (speakers & E & _).
    now exists speakers, (map afterGrouping csvFilesData).
Qed.

(** The tables the grouper returns satisfy the invariant the rankings
    are stated under. *)
Theorem sortAndGroupData_wf_table (csvFilesData left : list CsvFile)
  (speakers : ISpeaker) :
  sortAndGroupData csvFilesData = (Ok speakers, left) ->
  wf_table speakers.
Proof.
  intros H.
  assert (G : groupable csvFilesData)
    by (eapply groupFiles_completes; [exact grouped_nil | exact H]).
  destruct (groupFiles_spec csvFilesData [] grouped_nil G)
    as (speakers' & E & Hinv & _).
  unfold sortAndGroupData in H. rewrite H in E. injection E as -> _.
  now apply grouped_wf_table.
Qed.

(** * Further properties of the pipeline *)

(** ** The total of a speaker's words *)





(** ** The least wordy speaker *)

Lemma insert_In {A : Type} (comparefn : A -> A -> number) (x y : A) (l : list A) :
  In y (insert comparefn x l) <-> y = x \/ In y l.
Proof.
  induction l as [|z l IH]; simpl.
  - intuition congruence.
  - destruct (sortCompare (comparefn x z) <=? 0)%Z; simpl.
    + intuition congruence.
    + rewrite IH. intuition congruence.
Qed.

Lemma sort_In {A : Type} (comparefn : A -> A -> number) (y : A) (l : list A) :
  In y (sort comparefn l) <-> In y l.
Proof.
  induction l as [|x l IH]; simpl; [tauto|].
  rewrite insert_In, IH. intuition congruence.
Qed.

Lemma speakersByWords_from (speakers : ISpeaker) :
  forall acc : filteredSpeakerType,
    enumerated (map fst acc ++ map fst speakers) ->
    Forall named speakers ->
    fold_left (fun acc (entry : string * Speaker) =>
                 let speakersName := name (snd entry) in
                 setNumber (ToString speakersName)
                           (totalWords (speaches (snd entry))) acc)
              speakers acc
    = acc ++ map (fun entry : string * Speaker =>
                    (fst entry, totalWords (speaches (snd entry)))) speakers.
Proof.
  induction speakers as [|[k s] speakers IH]; intros acc Henum Hnamed.
  - simpl. now rewrite app_nil_r.
  - apply Forall_cons_iff in Hnamed.
    destruct Hnamed as [[Hname Hproto] Hnamed].
    simpl in Hname, Hproto, Henum.
    destruct (enumerated_middle _ _ _ Henum) as [Hnew _].
    cbn [fold_left map fst snd].
    rewrite Hname, setNumber_last by assumption.
    rewrite IH.
    + now rewrite <- app_assoc.
    + now rewrite map_app, <- app_assoc.
    + assumption.
Qed.

Lemma getLeastWordySpeaker_head (speakers : ISpeaker) :
  wf_table speakers ->
  getLeastWordySpeaker speakers
  = option_map fst
      (hd_error
         (sort (fun a b : string * number => sub (snd a) (snd b))
               (map (fun entry : string * Speaker =>
                       (fst entry, totalWords (speaches (snd entry))))
                    speakers))).
Proof.
  intros [Henum Hnamed]. unfold getLeastWordySpeaker, speakersByWords.
  rewrite speakersByWords_from by assumption. cbn [app].
  destruct speakers as [|e speakers]; [reflexivity|].
  cbn [map].
  now destruct (sort _ (_ :: _)).
Qed.

Lemma getLeastWordySpeaker_in_table (speakers : ISpeaker) :
  wf_table speakers ->
  (getLeastWordySpeaker speakers = None <-> speakers = []) /\
  (forall winner : string,
      getLeastWordySpeaker speakers = Some winner ->
      exists s, In (winner, s) speakers).
Proof.
  intros Hwf. rewrite (getLeastWordySpeaker_head _ Hwf).
  set (byWords := map (fun entry : string * Speaker =>
                         (fst entry, totalWords (speaches (snd entry))))
                      speakers).
  set (cmp := fun a b : string * number => sub (snd a) (snd b)).
  destruct (sort cmp byWords) as [|x sorted] eqn:Es; simpl.
  - assert (speakers = []) as ->.
    { destruct speakers as [|e l]; [reflexivity|].
      assert (Hin : In (fst e, totalWords (speaches (snd e))) (sort cmp byWords))
        by (apply sort_In; now left).
      rewrite Es in Hin. destruct Hin. }
    split; [tauto | discriminate].
  - assert (Hx : In x byWords) by (apply (sort_In cmp); rewrite Es; now left).
    apply in_map_iff in Hx. destruct Hx as ([k s] & <- & Hin).
    split.
    + split; [discriminate|]. intros ->. destruct Hin.
    + intros winner [= <-]. now exists s.
Qed.

(** X2: over a speaker table, the least wordy speaker is [null] only
    for the table without speakers, and otherwise it is the name of a
    speaker of the table, also when totals are NaN; so the only speaker
    of a table is its least wordy one, whatever the words. *)
Theorem getLeastWordySpeaker_names_a_speaker (speakers : ISpeaker) :
  wf_table speakers ->
  (getLeastWordySpeaker speakers = None <-> speakers = []) /\
  (forall winner : string,
      getLeastWordySpeaker speakers = Some winner ->
      exists s, In (winner, s) speakers) /\
  (forall k s, speakers = [(k, s)] -> getLeastWordySpeaker speakers = Some k).
Proof.
  intros Hwf.
  destruct (getLeastWordySpeaker_in_table speakers Hwf) as [Hnone Hsome].
  repeat split; try apply Hnone; try assumption.
  intros k s E.
  destruct (getLeastWordySpeaker speakers) as [winner|].
  - destruct (Hsome winner eq_refl) as [s' Hin].
    rewrite E in Hin. destruct Hin as [[= <- _]|[]]. reflexivity.
  - destruct Hnone as [Hempty _]. specialize (Hempty eq_refl). congruence.
Qed.

Lemma getLeastWordySpeaker_names_a_speaker_witness :
  wf_table withMalformed /\
  (getLeastWordySpeaker withMalformed = None <-> withMalformed = []) /\
  (forall winner : string,
      getLeastWordySpeaker withMalformed = Some winner ->
      exists s, In (winner, s) withMalformed) /\
  (forall k s, withMalformed = [(k, s)] ->
               getLeastWordySpeaker withMalformed = Some k).
Proof.
  split; [wf_table_by_computation|].
  apply (getLeastWordySpeaker_names_a_speaker withMalformed).
  wf_table_by_computation.
Defined.



(** ** The table of matching speakers *)

Lemma selected_map_filter (host : Host) (filterOptions : IFilterOptions)
  (speakers : ISpeaker) :
  selected host filterOptions speakers
  = map (fun entry : string * Speaker =>
           (fst entry, Num (Z.of_nat (matchCount host filterOptions (snd entry)))))
        (filter (fun entry : string * Speaker =>
                   (0 <? matchCount host filterOptions (snd entry))%nat)
                speakers).
Proof.
  induction speakers as [|e l IH]; [reflexivity|].
  cbn [selected flat_map filter]. fold (selected host filterOptions l).
  rewrite IH.
  now destruct (0 <? matchCount host filterOptions (snd e))%nat.
Qed.

(** X4: over a speaker table, [filterForSpeakers] returns the speakers
    with at least one matching speech, each under its name with the
    number of its matching speeches, in the order of the table; the
    speakers without a match are left out. *)
Theorem filterForSpeakers_table (host : Host) (filterOptions : IFilterOptions)
  (speakers : ISpeaker) :
  wf_table speakers ->
  filterForSpeakers host speakers filterOptions
  = map (fun entry : string * Speaker =>
           (fst entry, Num (Z.of_nat (matchCount host filterOptions (snd entry)))))
        (filter (fun entry : string * Speaker =>
                   (0 <? matchCount host filterOptions (snd entry))%nat)
                speakers).
Proof.
  intros Hwf.
  now rewrite (filterForSpeakers_selected _ _ _ Hwf), selected_map_filter.
Qed.

Lemma filterForSpeakers_table_witness :
  wf_table securityTable /\
  filterForSpeakers hostUTC securityTable (byTopic "Internal Security")
  = map (fun entry : string * Speaker =>
           (fst entry,
            Num (Z.of_nat (matchCount hostUTC (byTopic "Internal Security")
                                      (snd entry)))))
        (filter (fun entry : string * Speaker =>
                   (0 <? matchCount hostUTC (byTopic "Internal Security")
                                    (snd entry))%nat)
                securityTable).
Proof.
  split; [wf_table_by_computation|].
  apply (filterForSpeakers_table hostUTC (byTopic "Internal Security")
           securityTable).
  wf_table_by_computation.
Defined.

Lemma setNumber_Forall (P : string * number -> Prop) (k : string) (n : number)
  (o : object number) :
  P (k, n) -> Forall P o -> Forall P (setNumber k n o).
Proof.
  intros Hkn Ho. unfold setNumber.
  destruct (String.eqb k "__proto__"); [assumption | now apply set_Forall].
Qed.

Lemma filterForSpeakers_Forall (host : Host) (filterOptions : IFilterOptions)
  (P : string * number -> Prop) (speakers : ISpeaker) :
  (forall entry, In entry speakers ->
     (0 < matchCount host filterOptions (snd entry))%nat ->
     P (ToString (name (snd entry)),
        Num (Z.of_nat (matchCount host filterOptions (snd entry))))) ->
  Forall P (filterForSpeakers host speakers filterOptions).
Proof.
  unfold filterForSpeakers.
  assert (Hacc : Forall P []) by constructor. revert Hacc.
  generalize (@nil (string * number)).
  induction speakers as [|e l IH]; intros acc Hacc Hall; simpl.
  - assumption.
  - apply IH.
    + fold (matchCount host filterOptions (snd e)).
      destruct (Nat.ltb_spec 0 (matchCount host filterOptions (snd e))).
      * apply setNumber_Forall; [|assumption]. apply Hall; [now left|assumption].
      * assumption.
    + intros entry Hin. apply Hall. now right.
Qed.

(** X5: whatever the table, every entry [filterForSpeakers] returns
    stands under the name of a speaker of the table and holds the
    number of that speaker's matching speeches, which is at least 1:
    the function never stores a zero or NaN. *)
Theorem filterForSpeakers_counts_positive (host : Host)
  (filterOptions : IFilterOptions) (speakers : ISpeaker)
  (k : string) (n : number) :
  In (k, n) (filterForSpeakers host speakers filterOptions) ->
  exists entry,
    In entry speakers /\
    k = ToString (name (snd entry)) /\
    n = Num (Z.of_nat (matchCount host filterOptions (snd entry))) /\
    (1 <= matchCount host filterOptions (snd entry))%nat.
Proof.
  intros Hin.
  pose proof (filterForSpeakers_Forall host filterOptions
    (fun kn => exists entry,
       In entry speakers /\
       fst kn = ToString (name (snd entry)) /\
       snd kn = Num (Z.of_nat (matchCount host filterOptions (snd entry))) /\
       (1 <= matchCount host filterOptions (snd entry))%nat) speakers) as H.
  rewrite Forall_forall in H. apply (H (fun entry Hentry Hpos =>
    ex_intro _ entry (conj Hentry (conj eq_refl (conj eq_refl Hpos)))) (k, n) Hin).
Qed.

Lemma filterForSpeakers_counts_positive_witness :
  In ("Alice", Num 1)
     (filterForSpeakers hostUTC securityTable (byTopic "Internal Security")) /\
  exists entry,
    In entry securityTable /\
    "Alice" = ToString (name (snd entry)) /\
    Num 1 = Num (Z.of_nat (matchCount hostUTC (byTopic "Internal Security")
                                      (snd entry))) /\
    (1 <= matchCount hostUTC (byTopic "Internal Security") (snd entry))%nat.
Proof.
  assert (Hin : In ("Alice", Num 1)
     (filterForSpeakers hostUTC securityTable (byTopic "Internal Security")))
    by (vm_compute; auto).
  split; [exact Hin|].
  exact (filterForSpeakers_counts_positive hostUTC
           (byTopic "Internal Security") securityTable "Alice" (Num 1) Hin).
Defined.

Lemma filterForSpeakers_no_match (host : Host) (filterOptions : IFilterOptions)
  (speakers : ISpeaker) :
  (forall speach, matches host filterOptions speach = false) ->
  filterForSpeakers host speakers filterOptions = [].
Proof.
  intros Hnone.
  assert (H := filterForSpeakers_Forall host filterOptions (fun _ => False) speakers).
  destruct (filterForSpeakers host speakers filterOptions) as [|x l];
    [reflexivity|].
  exfalso. assert (Hall : Forall (fun _ : string * number => False) (x :: l)).
  { apply H. intros entry _ Hpos. unfold matchCount in Hpos.
    rewrite (filter_ext _ (fun _ => false) Hnone), filter_false in Hpos.
    simpl in Hpos. lia. }
  now inversion Hall.
Qed.

(** X6: a filter whose value is not of the kind its mode compares with
    matches nothing, because the comparisons are strict: by year with a
    text (also the text of the year) or with NaN, and by topic with a
    number, [getFilteredSpeaker] answers [null] over every table and on
    every host. *)
Theorem getFilteredSpeaker_mismatched_filter (host : Host)
  (speakers : ISpeaker) (t : string) (n : number) :
  getFilteredSpeaker host speakers
    {| option_ := filterByYear; value := Text t |} = None /\
  getFilteredSpeaker host speakers
    {| option_ := filterByYear; value := Number NaN |} = None /\
  getFilteredSpeaker host speakers
    {| option_ := filterByTopic; value := Number n |} = None.
Proof.
  unfold getFilteredSpeaker.
  repeat split; rewrite filterForSpeakers_no_match; try reflexivity;
    intros speach; unfold matches; simpl; try reflexivity.
  now destruct (getFullYear host (date speach)).
Qed.

(** ** The validator and the columns *)

(** X7: the validator looks at the first four fields of a row only: a
    row and the row cut after its fourth field get the same answer, and
    a header followed by further columns is valid. *)
Theorem validateCsvHeader_first_four (row extra : Row) :
  validateCsvHeader (Some row) = validateCsvHeader (Some (firstn 4 row)) /\
  validateCsvHeader (Some (header ++ extra)) = Ok true.
Proof.
  split; [|reflexivity].
  unfold validateCsvHeader, ColumnDefinitions.Speaker, ColumnDefinitions.Topic,
    ColumnDefinitions.Date, ColumnDefinitions.Words.
  now rewrite !nth_error_firstn.
Qed.

(** ** The files after a grouping run, whatever its outcome *)

Lemma Forall2_same {A : Type} (R : A -> A -> Prop) (l : list A) :
  (forall x, R x x) -> Forall2 R l l.
Proof. intros H. induction l; constructor; auto. Qed.

(** X8: whether the grouper returns or throws, it leaves as many files
    as it got, and each file either as it was or, if its first row is a
    valid header, without that row; it changes no other row and no
    file with an invalid header. *)
Theorem sortAndGroupData_leaves_files (csvFilesData : list CsvFile) :
  Forall2 (fun before after =>
             after = before \/ (headerValid before /\ after = tl before))
          csvFilesData (snd (sortAndGroupData csvFilesData)).
Proof.
  unfold sortAndGroupData. generalize (@nil (string * Speaker)).
  induction csvFilesData as [|csvFile rest IH]; intros speakers; simpl.
  - constructor.
  - destruct (validateCsvHeader (hd_error csvFile)) as [[|]|] eqn:V.
    + destruct (groupRows (tl csvFile) speakers) as [speakers'|]; simpl.
      * specialize (IH speakers').
        destruct (groupFiles rest speakers') as [out rest']. simpl in *.
        constructor; [now right | assumption].
      * constructor; [now right|]. apply Forall2_same. now left.
    + specialize (IH speakers).
      destruct (groupFiles rest speakers) as [out rest']. simpl in *.
      constructor; [now left | assumption].
    + simpl. apply Forall2_same. now left.
Qed.

(** X9: when no file has a valid header (and so for no files at all)
    the grouper returns the empty table and leaves the files as they
    are. *)
Theorem sortAndGroupData_all_invalid (csvFilesData : list CsvFile) :
  Forall headerInvalid csvFilesData ->
  sortAndGroupData csvFilesData = (Ok [], csvFilesData).
Proof.
  unfold sortAndGroupData. intros H. generalize (@nil (string * Speaker)).
  induction H as [|csvFile rest Hinv _ IH]; intros speakers; simpl.
  - reflexivity.
  - unfold headerInvalid in Hinv. now rewrite Hinv, IH.
Qed.

Lemma sortAndGroupData_all_invalid_witness :
  Forall headerInvalid [tableB; tl tableA] /\
  sortAndGroupData [tableB; tl tableA] = (Ok [], [tableB; tl tableA]).
Proof.
  assert (H : Forall headerInvalid [tableB; tl tableA])
    by (repeat constructor).
  split; [exact H|].
  exact (sortAndGroupData_all_invalid [tableB; tl tableA] H).
Defined.

(** ** The speakers of the grouped table *)

Lemma set_keys {V : Type} (k x : string) (v : V) (o : object V) :
  In x (map fst (set k v o)) <-> x = k \/ In x (map fst o).
Proof.
  unfold set. destruct (getOwn k o) as [v'|] eqn:E.
  - rewrite update_keys. split; [now right|].
    intros [->|H]; [|assumption].
    apply getOwn_In in E. now apply (in_map fst) in E.
  - apply create_keys.
Qed.

Lemma groupRow_keys (speakers speakers' : ISpeaker) (rowData : Row) :
  groupRow speakers rowData = Ok speakers' ->
  forall k, In k (map fst speakers') <->
            k = speakerKey rowData \/ In k (map fst speakers).
Proof.
  unfold groupRow. fold (speakerKey rowData).
  destruct (get (speakerKey rowData) speakers); intros [= <-] k;
    apply set_keys.
Qed.

Lemma groupRows_keys (rows : list Row) :
  forall speakers speakers' : ISpeaker,
    groupRows rows speakers = Ok speakers' ->
    forall k, In k (map fst speakers') <->
              In k (map speakerKey rows) \/ In k (map fst speakers).
Proof.
  induction rows as [|rowData rows IH]; intros speakers speakers' H k.
  - injection H as <-. simpl. tauto.
  - simpl in H. destruct (groupRow speakers rowData) as [speakers1|] eqn:E;
      [|discriminate].
    simpl in H. rewrite (IH _ _ H), (groupRow_keys _ _ _ E). simpl.
    intuition congruence.
Qed.

Lemma groupFiles_keys (csvFilesData : list CsvFile) :
  forall (speakers speakers' : ISpeaker) (left : list CsvFile),
    groupFiles csvFilesData speakers = (Ok speakers', left) ->
    forall k, In k (map fst speakers') <->
              In k (map speakerKey (dataRows csvFilesData))
              \/ In k (map fst speakers).
Proof.
  induction csvFilesData as [|csvFile rest IH];
    intros speakers speakers' left H k.
  - injection H as <- _. simpl. tauto.
  - cbn [groupFiles dataRows flat_map] in *. fold (dataRows rest).
    destruct (validateCsvHeader (hd_error csvFile)) as [[|]|];
      [| |discriminate].
    + destruct (groupRows (tl csvFile) speakers) as [speakers1|] eqn:E;
        [|discriminate].
      destruct (groupFiles rest speakers1) as [out rest'] eqn:E'.
      injection H as -> _.
      rewrite (IH _ _ _ E'), (groupRows_keys _ _ _ E), map_app, in_app_iff.
      tauto.
    + destruct (groupFiles rest speakers) as [out rest'] eqn:E'.
      injection H as -> _. now rewrite (IH _ _ _ E').
Qed.

Lemma getOwn_of_In {V : Type} (k : string) (v : V) (o : object V) :
  enumerated (map fst o) -> In (k, v) o -> getOwn k o = Some v.
Proof.
  unfold enumerated.
  induction o as [|[k' v'] o IH]; simpl; intros Henum Hin; [contradiction|].
  inversion Henum as [|? ? Hk' Hrest]; subst.
  destruct Hin as [[= -> ->]|Hin].
  - now rewrite String.eqb_refl.
  - destruct (String.eqb_spec k k') as [->|_]; [|now apply IH].
    rewrite Forall_forall in Hk'.
    destruct (Hk' k' (in_map fst _ _ Hin)) as [Hne _]. now destruct Hne.
Qed.

(** X10: in the table the grouper returns, the speakers are the speaker
    fields of the data rows of the valid files, neither more nor fewer,
    and every speaker has at least one speech. *)
Theorem sortAndGroupData_speakers (csvFilesData left : list CsvFile)
  (speakers : ISpeaker) :
  sortAndGroupData csvFilesData = (Ok speakers, left) ->
  (forall k, In k (map fst speakers) <->
             exists rowData,
               In rowData (dataRows csvFilesData) /\ speakerKey rowData = k) /\
  (forall k s, In (k, s) speakers -> speaches s <> []).
Proof.
  intros H.
  assert (Hkeys : forall k, In k (map fst speakers) <->
             exists rowData,
               In rowData (dataRows csvFilesData) /\ speakerKey rowData = k).
  { intros k. unfold sortAndGroupData in H.
    rewrite (groupFiles_keys _ _ _ _ H k), in_map_iff. simpl.
    split.
    - intros [(rowData & E & Hin)|[]]. now exists rowData.
    - intros (rowData & Hin & E). left. now exists rowData. }
  split; [exact Hkeys|].
  intros k s Hin.
  assert (G : groupable csvFilesData)
    by (eapply groupFiles_completes; [exact grouped_nil | exact H]).
  destruct (groupFiles_spec csvFilesData [] grouped_nil G)
    as (speakers' & E & [Henum _] & Hsp & _).
  unfold sortAndGroupData in H. rewrite H in E. injection E as <- _.
  specialize (Hsp k). unfold speachesOf at 1 in Hsp.
  rewrite (getOwn_of_In _ _ _ Henum Hin) in Hsp. rewrite Hsp. simpl.
  destruct (proj1 (Hkeys k) (in_map fst _ _ Hin)) as (rowData & Hrow & Ek).
  intros Hnil. apply map_eq_nil in Hnil.
  assert (Hf : In rowData
                 (filter (fun rowData => String.eqb (speakerKey rowData) k)
                         (dataRows csvFilesData)))
    by (apply filter_In; split; [assumption | now apply String.eqb_eq]).
  rewrite Hnil in Hf. destruct Hf.
Qed.

Lemma sortAndGroupData_speakers_witness :
  sortAndGroupData [tableA; tableB] =
    (Ok [speakerOf "Alice" [speach "Internal Security" "2013-01-01" "100"];
         speakerOf "Bob" [speach "Budget" "2013-02-01" "50"]],
     [tl tableA; tableB]) /\
  (forall k,
      In k (map fst
              [speakerOf "Alice" [speach "Internal Security" "2013-01-01" "100"];
               speakerOf "Bob" [speach "Budget" "2013-02-01" "50"]]) <->
      exists rowData,
        In rowData (dataRows [tableA; tableB]) /\ speakerKey rowData = k) /\
  (forall k s,
      In (k, s)
         [speakerOf "Alice" [speach "Internal Security" "2013-01-01" "100"];
          speakerOf "Bob" [speach "Budget" "2013-02-01" "50"]] ->
      speaches s <> []).
Proof.
  split; [reflexivity|].
  apply (sortAndGroupData_speakers [tableA; tableB] [tl tableA; tableB]).
  reflexivity.
Defined.

(** ** The order of the speakers in the grouped table *)

Lemma existsb_getOwn {V : Type} (k : string) (o : object V) :
  existsb (String.eqb k) (map fst o)
  = match getOwn k o with Some _ => true | None => false end.
Proof.
  induction o as [|[k' v'] o IH]; simpl; [reflexivity|].
  now destruct (String.eqb k k').
Qed.

Lemma precedes_not_index (k k' : string) :
  arrayIndex k = None -> precedes k k' = false.
Proof. unfold precedes. now intros ->. Qed.

Lemma groupRow_appearance (speakers speakers' : ISpeaker) (rowData : Row) :
  arrayIndex (speakerKey rowData) = None ->
  groupRow speakers rowData = Ok speakers' ->
  map fst speakers' = appearance (map fst speakers) [speakerKey rowData].
Proof.
  intros Hidx. unfold groupRow, get, appearance. fold (speakerKey rowData).
  simpl. rewrite existsb_getOwn.
  destruct (getOwn (speakerKey rowData) speakers) as [entry|] eqn:E.
  - intros [= <-]. unfold set. rewrite E. apply update_keys.
  - destruct (inherited (speakerKey rowData)); [discriminate|].
    intros [= <-]. unfold set. rewrite E, create_last, map_app.
    + reflexivity.
    + intros k' _. now apply precedes_not_index.
Qed.

Lemma groupRows_appearance (rows : list Row) :
  forall speakers speakers' : ISpeaker,
    Forall (fun rowData => arrayIndex (speakerKey rowData) = None) rows ->
    groupRows rows speakers = Ok speakers' ->
    map fst speakers' = appearance (map fst speakers) (map speakerKey rows).
Proof.
  induction rows as [|rowData rows IH]; intros speakers speakers' Hidx H.
  - now injection H as <-.
  - apply Forall_cons_iff in Hidx. destruct Hidx as [Hrow Hrows].
    simpl in H. destruct (groupRow speakers rowData) as [speakers1|] eqn:E;
      [|discriminate].
    simpl in H. rewrite (IH _ _ Hrows H), (groupRow_appearance _ _ _ Hrow E).
    reflexivity.
Qed.

Lemma groupFiles_appearance (csvFilesData : list CsvFile) :
  forall (speakers speakers' : ISpeaker) (left : list CsvFile),
    Forall (fun rowData => arrayIndex (speakerKey rowData) = None)
           (dataRows csvFilesData) ->
    groupFiles csvFilesData speakers = (Ok speakers', left) ->
    map fst speakers'
    = appearance (map fst speakers) (map speakerKey (dataRows csvFilesData)).
Proof.
  induction csvFilesData as [|csvFile rest IH];
    intros speakers speakers' left Hidx H.
  - now injection H as <- _.
  - cbn [groupFiles dataRows flat_map] in *. fold (dataRows rest) in *.
    destruct (validateCsvHeader (hd_error csvFile)) as [[|]|];
      [| |discriminate].
    + apply Forall_app in Hidx. destruct Hidx as [Hhere Hlater].
      destruct (groupRows (tl csvFile) speakers) as [speakers1|] eqn:E;
        [|discriminate].
      destruct (groupFiles rest speakers1) as [out rest'] eqn:E'.
      injection H as -> _.
      rewrite (IH _ _ _ Hlater E'), (groupRows_appearance _ _ _ Hhere E).
      unfold appearance. now rewrite map_app, fold_left_app.
    + destruct (groupFiles rest speakers) as [out rest'] eqn:E'.
      injection H as -> _. now apply (IH _ _ _ Hidx E').
Qed.

(** X13: when no speaker field of a data row is an array index (the
    decimal text of an integer from 0 to 2^32 - 2), the speakers of the
    grouped table come in the order in which they first appear in the
    data rows, file after file; this is the order that breaks the ties
    of the rankings. *)
Theorem sortAndGroupData_first_appearance (csvFilesData left : list CsvFile)
  (speakers : ISpeaker) :
  Forall (fun rowData => arrayIndex (speakerKey rowData) = None)
         (dataRows csvFilesData) ->
  sortAndGroupData csvFilesData = (Ok speakers, left) ->
  map fst speakers = appearance [] (map speakerKey (dataRows csvFilesData)).
Proof.
  intros Hidx H. exact (groupFiles_appearance _ _ _ _ Hidx H).
Qed.

Lemma sortAndGroupData_first_appearance_witness :
  Forall (fun rowData => arrayIndex (speakerKey rowData) = None)
         (dataRows [tableA; tableB; tableA]) /\
  map fst [speakerOf "Alice" [speach "Internal Security" "2013-01-01" "100";
                              speach "Internal Security" "2013-01-01" "100"];
           speakerOf "Bob" [speach "Budget" "2013-02-01" "50";
                            speach "Budget" "2013-02-01" "50"]]
  = appearance [] (map speakerKey (dataRows [tableA; tableB; tableA])).
Proof.
  assert (Hidx : Forall (fun rowData => arrayIndex (speakerKey rowData) = None)
                        (dataRows [tableA; tableB; tableA]))
    by (repeat constructor).
  split; [exact Hidx|].
  apply (sortAndGroupData_first_appearance [tableA; tableB; tableA]
           [tl tableA; tableB; tl tableA] _ Hidx).
  reflexivity.
Defined.

Lemma enumerated_pair (l1 l2 l3 : list string) (a b : string) :
  enumerated (l1 ++ a :: l2 ++ b :: l3) ->
  a <> b /\ precedes b a = false.
Proof.
  unfold enumerated. induction l1 as [|c l1 IH]; simpl; intros H;
    inversion H as [|? ? Hfirst Hrest]; subst.
  - apply Forall_app in Hfirst. destruct Hfirst as [_ Hb].
    now apply Forall_cons_iff in Hb.
  - now apply IH.
Qed.

(** X14: in the table the grouper returns, a speaker whose name is an
    array index stands before every speaker whose name is not, and
    among such names the smaller index stands first, whatever the order
    of the rows: if a speaker named by the index [j] is enumerated
    after another speaker, that one is named by an index too, and one
    not above [j]. *)
Theorem sortAndGroupData_index_names_first (csvFilesData left : list CsvFile)
  (speakers : ISpeaker) :
  sortAndGroupData csvFilesData = (Ok speakers, left) ->
  forall l1 l2 l3 a b (j : Z),
    map fst speakers = l1 ++ a :: l2 ++ b :: l3 ->
    arrayIndex b = Some j ->
    a <> b /\ exists i : Z, arrayIndex a = Some i /\ (i <= j)%Z.
Proof.
  intros H l1 l2 l3 a b j Hsplit Hb.
  destruct (sortAndGroupData_wf_table _ _ _ H) as [Henum _].
  rewrite Hsplit in Henum.
  destruct (enumerated_pair _ _ _ _ _ Henum) as [Hne Hprec].
  split; [assumption|].
  unfold precedes in Hprec. rewrite Hb in Hprec.
  destruct (arrayIndex a) as [i|]; [|discriminate].
  exists i. split; [reflexivity|]. apply Z.ltb_ge in Hprec. lia.
Qed.

Lemma sortAndGroupData_index_names_first_witness :
  sortAndGroupData [tableNumbered] =
    (Ok [speakerOf "7" [speach "Health" "2013-02-03" "5"];
         speakerOf "10" [speach "Budget" "2013-02-02" "5"];
         speakerOf "Bob" [speach "Budget" "2013-02-01" "50";
                          speach "Health" "2013-02-04" "1"]],
     [tl tableNumbered]) /\
  forall l1 l2 l3 a b (j : Z),
    map fst [speakerOf "7" [speach "Health" "2013-02-03" "5"];
             speakerOf "10" [speach "Budget" "2013-02-02" "5"];
             speakerOf "Bob" [speach "Budget" "2013-02-01" "50";
                              speach "Health" "2013-02-04" "1"]]
      = l1 ++ a :: l2 ++ b :: l3 ->
    arrayIndex b = Some j ->
    a <> b /\ exists i : Z, arrayIndex a = Some i /\ (i <= j)%Z.
Proof.
  split; [reflexivity|].
  apply (sortAndGroupData_index_names_first [tableNumbered] [tl tableNumbered]).
  reflexivity.
Defined.

(** ** The evaluator *)

Lemma evaluate_unfold (host : Host) (csvFilesData : list CsvFile) :
  evaluate host csvFilesData
  = (match fst (sortAndGroupData csvFilesData) with
     | Ok speakers => Ok (answersOver host speakers)
     | TypeError => TypeError
     end,
     snd (sortAndGroupData csvFilesData)).
Proof.
  unfold evaluate. now destruct (sortAndGroupData csvFilesData) as [[s|] l].
Qed.

(** X15: the evaluator completes exactly on the inputs on which the
    grouper does: when every file has a first row and no data row under
    a valid header names a property of [Object.prototype], it returns
    the three rankings of the grouped table and leaves the valid files
    without their headers; on every other input it throws. *)
Theorem evaluate_outcome (host : Host) (csvFilesData : list CsvFile) :
  (groupable csvFilesData ->
   exists speakers,
     sortAndGroupData csvFilesData
       = (Ok speakers, map afterGrouping csvFilesData) /\
     evaluate host csvFilesData
       = (Ok (answersOver host speakers), map afterGrouping csvFilesData)) /\
  (~ groupable csvFilesData ->
   fst (evaluate host csvFilesData) = TypeError).
Proof.
  split.
  - intros G.
    destruct (groupFiles_spec csvFilesData [] grouped_nil G)
      as (speakers & E & _).
    exists speakers. split; [exact E|].
    rewrite evaluate_unfold. unfold sortAndGroupData. now rewrite E.
  - intros NG. rewrite evaluate_unfold. simpl.
    destruct (sortAndGroupData csvFilesData) as [[speakers|] left] eqn:E;
      [|reflexivity].
    exfalso. apply NG.
    eapply groupFiles_completes; [exact grouped_nil | exact E].
Qed.



Lemma getFilteredSpeaker_in_table (host : Host) (filterOptions : IFilterOptions)
  (speakers : ISpeaker) (winner : string) :
  wf_table speakers ->
  getFilteredSpeaker host speakers filterOptions = Some winner ->
  In winner (map fst speakers).
Proof.
  intros [_ Hnamed].
  unfold getFilteredSpeaker.
  pose proof (filterForSpeakers_Forall host filterOptions
                (fun kn => In (fst kn) (map fst speakers)) speakers) as HP.
  assert (Hall : Forall (fun kn : string * number => In (fst kn) (map fst speakers))
                        (filterForSpeakers host speakers filterOptions)).
  { apply HP. intros entry Hin _. simpl.
    rewrite Forall_forall in Hnamed. destruct (Hnamed _ Hin) as [-> _].
    now apply in_map. }
  destruct (filterForSpeakers host speakers filterOptions) as [|x l];
    [discriminate|].
  destruct (sort _ (x :: l)) as [|first sorted] eqn:Es; [discriminate|].
  intros [= <-].
  rewrite Forall_forall in Hall. apply Hall.
  apply (sort_In (fun a b : string * number => sub (snd b) (snd a))).
  rewrite Es. now left.
Qed.

Lemma sortAndGroupData_no_rows (csvFilesData left : list CsvFile)
  (speakers : ISpeaker) :
  sortAndGroupData csvFilesData = (Ok speakers, left) ->
  (speakers = [] <-> dataRows csvFilesData = []).
Proof.
  intros H. unfold sortAndGroupData in H.
  pose proof (groupFiles_keys _ _ _ _ H) as Hkeys. simpl in Hkeys.
  split.
  - intros ->. destruct (dataRows csvFilesData) as [|rowData rows];
      [reflexivity|].
    destruct (proj2 (Hkeys (speakerKey rowData))). left. now left.
  - intros E. rewrite E in Hkeys. simpl in Hkeys.
    destruct speakers as [|[k s] l]; [reflexivity|].
    destruct (proj1 (Hkeys k)) as [[]|[]]. now left.
Qed.

(** X17: when the evaluator completes, the least wordy speaker is
    [null] exactly when the valid files have no data row at all, and
    then the other two answers are [null] too; as soon as there is one
    data row, a least wordy speaker is named. *)
Theorem evaluate_leastWordy_null (host : Host)
  (csvFilesData left : list CsvFile) (answers : EvaluationResult) :
  evaluate host csvFilesData = (Ok answers, left) ->
  (leastWordy answers = None <-> dataRows csvFilesData = []) /\
  (leastWordy answers = None -> answers = noResult).
Proof.
  rewrite evaluate_unfold.
  destruct (sortAndGroupData csvFilesData) as [[speakers|] left'] eqn:E;
    simpl; intros [= <- <-].
  pose proof (sortAndGroupData_wf_table _ _ _ E) as Hwf.
  destruct (getLeastWordySpeaker_in_table speakers Hwf) as [Hnone _].
  pose proof (sortAndGroupData_no_rows _ _ _ E) as Hrows.
  simpl. split.
  - now rewrite Hnone.
  - intros Hn. apply Hnone in Hn. now subst speakers.
Qed.

Lemma evaluate_leastWordy_null_witness :
  evaluate hostUTC [tableA; tableB] =
    (Ok {| mostSpeaches := Some "Alice";
           mostSecurity := Some "Alice";
           leastWordy := Some "Bob" |},
     [tl tableA; tableB]) /\
  (leastWordy {| mostSpeaches := Some "Alice";
                 mostSecurity := Some "Alice";
                 leastWordy := Some "Bob" |} = None
   <-> dataRows [tableA; tableB] = []) /\
  (leastWordy {| mostSpeaches := Some "Alice";
                 mostSecurity := Some "Alice";
                 leastWordy := Some "Bob" |} = None ->
   {| mostSpeaches := Some "Alice";
      mostSecurity := Some "Alice";
      leastWordy := Some "Bob" |} = noResult).
Proof.
  split; [reflexivity|].
  apply (evaluate_leastWordy_null hostUTC [tableA; tableB] [tl tableA; tableB]).
  reflexivity.
Defined.

(** X18: every answer of the evaluator that is not [null] is the
    speaker field of a data row of a valid file (read as a key, so
    "undefined" for a row without fields): the rankings name no one who
    is not in the input. *)
Theorem evaluate_names_input_speakers (host : Host)
  (csvFilesData left : list CsvFile) (answers : EvaluationResult)
  (winner : string) :
  evaluate host csvFilesData = (Ok answers, left) ->
  mostSpeaches answers = Some winner \/
  mostSecurity answers = Some winner \/
  leastWordy answers = Some winner ->
  exists rowData,
    In rowData (dataRows csvFilesData) /\ speakerKey rowData = winner.
Proof.
  rewrite evaluate_unfold.
  destruct (sortAndGroupData csvFilesData) as [[speakers|] left'] eqn:E;
    simpl; intros [= <- <-] Hwin.
  pose proof (sortAndGroupData_wf_table _ _ _ E) as Hwf.
  assert (Hkey : In winner (map fst speakers)).
  { simpl in Hwin. destruct Hwin as [H|[H|H]].
    - exact (getFilteredSpeaker_in_table _ _ _ _ Hwf H).
    - exact (getFilteredSpeaker_in_table _ _ _ _ Hwf H).
    - destruct (getLeastWordySpeaker_in_table speakers Hwf) as [_ Hin].
      destruct (Hin _ H) as [s Hs]. now apply (in_map fst) in Hs. }
  unfold sortAndGroupData in E.
  apply (groupFiles_keys _ _ _ _ E) in Hkey. simpl in Hkey.
  destruct Hkey as [Hkey|[]].
  apply in_map_iff in Hkey. destruct Hkey as (rowData & Ek & Hin).
  now exists rowData.
Qed.

Lemma evaluate_names_input_speakers_witness :
  evaluate hostUTC [tableA; tableB] =
    (Ok {| mostSpeaches := Some "Alice";
           mostSecurity := Some "Alice";
           leastWordy := Some "Bob" |},
     [tl tableA; tableB]) /\
  exists rowData,
    In rowData (dataRows [tableA; tableB]) /\ speakerKey rowData = "Bob".
Proof.
  split; [reflexivity|].
  apply (evaluate_names_input_speakers hostUTC [tableA; tableB]
           [tl tableA; tableB]
           {| mostSpeaches := Some "Alice";
              mostSecurity := Some "Alice";
              leastWordy := Some "Bob" |} "Bob").
  - reflexivity.
  - right. right. reflexivity.
Defined.

Lemma sortAndGroupData_groups_witness :
  groupable [tableA; tableB; tableA] /\
  exists speakers,
    sortAndGroupData [tableA; tableB; tableA]
      = (Ok speakers, map afterGrouping [tableA; tableB; tableA]) /\
    wf_table speakers /\
    (forall k, speachesOf k speakers
               = map speachOf
                   (filter (fun rowData => String.eqb (speakerKey rowData) k)
                           (dataRows [tableA; tableB; tableA]))) /\
    records speakers = List.length (dataRows [tableA; tableB; tableA]).
Proof.
  assert (G : groupable [tableA; tableB; tableA])
    by (split; repeat constructor; discriminate).
  split; [exact G|].
  exact (sortAndGroupData_groups [tableA; tableB; tableA] G).
Defined.

(** ** Columns beyond the fourth *)

Lemma groupRow_firstn (speakers : ISpeaker) (rowData : Row) :
  groupRow speakers (firstn 4 rowData) = groupRow speakers rowData.
Proof.
  unfold groupRow, speachOf, ColumnDefinitions.Speaker,
    ColumnDefinitions.Topic, ColumnDefinitions.Date, ColumnDefinitions.Words.
  now rewrite !nth_error_firstn.
Qed.

Lemma groupRows_firstn (rows : list Row) :
  forall speakers : ISpeaker,
    groupRows (map (firstn 4) rows) speakers = groupRows rows speakers.
Proof.
  induction rows as [|rowData rows IH]; intros speakers;
    cbn [map groupRows]; [reflexivity|].
  rewrite groupRow_firstn.
  destruct (groupRow speakers rowData); cbn [bind]; [apply IH | reflexivity].
Qed.

Lemma validateCsvHeader_fourColumns (csvFile : CsvFile) :
  validateCsvHeader (hd_error (fourColumns csvFile))
  = validateCsvHeader (hd_error csvFile).
Proof.
  destruct csvFile as [|row rows]; [reflexivity|].
  unfold fourColumns. cbn [map hd_error].
  unfold validateCsvHeader, ColumnDefinitions.Speaker,
    ColumnDefinitions.Topic, ColumnDefinitions.Date, ColumnDefinitions.Words.
  now rewrite !nth_error_firstn.
Qed.

Lemma groupFiles_fourColumns (csvFilesData : list CsvFile) :
  forall speakers : ISpeaker,
    groupFiles (map fourColumns csvFilesData) speakers
    = (fst (groupFiles csvFilesData speakers),
       map fourColumns (snd (groupFiles csvFilesData speakers))).
Proof.
  induction csvFilesData as [|csvFile rest IH]; intros speakers;
    [reflexivity|].
  cbn [map groupFiles]. rewrite validateCsvHeader_fourColumns.
  assert (Htl : tl (fourColumns csvFile) = map (firstn 4) (tl csvFile))
    by now destruct csvFile.
  destruct (validateCsvHeader (hd_error csvFile)) as [[|]|].
  - rewrite Htl, groupRows_firstn.
    destruct (groupRows (tl csvFile) speakers) as [speakers'|].
    + rewrite IH. destruct (groupFiles rest speakers'). reflexivity.
    + reflexivity.
  - rewrite IH. destruct (groupFiles rest speakers). reflexivity.
  - reflexivity.
Qed.

(** X19: the columns after the fourth play no part: on the files with
    every row cut after its fourth field the evaluator has the same
    outcome, the same answers or the same exception, and it leaves the
    cut files as it leaves the full ones. *)
Theorem evaluate_ignores_further_columns (host : Host)
  (csvFilesData : list CsvFile) :
  evaluate host (map fourColumns csvFilesData)
  = (fst (evaluate host csvFilesData),
     map fourColumns (snd (evaluate host csvFilesData))).
Proof.
  rewrite !evaluate_unfold. unfold sortAndGroupData.
  now rewrite groupFiles_fourColumns.
Qed.

(** ** Grouping more files *)

Lemma dataRows_app (files1 files2 : list CsvFile) :
  dataRows (files1 ++ files2) = dataRows files1 ++ dataRows files2.
Proof. unfold dataRows. apply flat_map_app. Qed.

Lemma groupable_app (files1 files2 : list CsvFile) :
  groupable (files1 ++ files2) <-> groupable files1 /\ groupable files2.
Proof.
  unfold groupable. rewrite dataRows_app, !Forall_app. tauto.
Qed.

(** X20: grouping merges: when the grouper completes on two lists of
    files one after the other in one call, it completes on each list
    alone, and under every key the one call holds the speeches of the
    first list followed by those of the second; the number of speeches
    is the sum. *)
Theorem sortAndGroupData_merges (files1 files2 : list CsvFile) :
  groupable (files1 ++ files2) ->
  exists speakers speakers1 speakers2,
    sortAndGroupData (files1 ++ files2)
      = (Ok speakers, map afterGrouping (files1 ++ files2)) /\
    sortAndGroupData files1 = (Ok speakers1, map afterGrouping files1) /\
    sortAndGroupData files2 = (Ok speakers2, map afterGrouping files2) /\
    (forall k, speachesOf k speakers
               = speachesOf k speakers1 ++ speachesOf k speakers2) /\
    records speakers = (records speakers1 + records speakers2)%nat.
Proof.
  intros G. pose proof G as G'. apply groupable_app in G'.
  destruct G' as [G1 G2].
  destruct (groupFiles_spec _ [] grouped_nil G) as (sp & E & _ & Hsp & Hrec).
  destruct (groupFiles_spec _ [] grouped_nil G1) as (sp1 & E1 & _ & Hsp1 & Hrec1).
  destruct (groupFiles_spec _ [] grouped_nil G2) as (sp2 & E2 & _ & Hsp2 & Hrec2).
  exists sp, sp1, sp2. repeat split; try assumption.
  - intros k. rewrite Hsp, Hsp1, Hsp2, dataRows_app, filter_app, map_app.
    reflexivity.
  - rewrite Hrec, Hrec1, Hrec2, dataRows_app, length_app.
    unfold records. simpl. lia.
Qed.

Lemma sortAndGroupData_merges_witness :
  groupable ([tableA; tableB] ++ [tableNumbered]) /\
  exists speakers speakers1 speakers2,
    sortAndGroupData ([tableA; tableB] ++ [tableNumbered])
      = (Ok speakers, map afterGrouping ([tableA; tableB] ++ [tableNumbered])) /\
    sortAndGroupData [tableA; tableB]
      = (Ok speakers1, map afterGrouping [tableA; tableB]) /\
    sortAndGroupData [tableNumbered]
      = (Ok speakers2, map afterGrouping [tableNumbered]) /\
    (forall k, speachesOf k speakers
               = speachesOf k speakers1 ++ speachesOf k speakers2) /\
    records speakers = (records speakers1 + records speakers2)%nat.
Proof.
  assert (G : groupable ([tableA; tableB] ++ [tableNumbered]))
    by (split; repeat constructor; discriminate).
  split; [exact G|].
  exact (sortAndGroupData_merges [tableA; tableB] [tableNumbered] G).
Defined.
